(** * stop: "space top" -- a shallow embedding of [src/stop/main.py]

    The program queries yabai for spaces and windows, joins the windows to
    the spaces, and prints one table.  The three external queries
    ([query_yabai "spaces"], [query_yabai "windows"], [get_tmux_sessions])
    are the inputs of [cli]; what [cli] prints and how it ends is its
    result.

    Conventions of the embedding:
    - a Python [str] is a [string] whose characters are code points below
      256, so [len], slicing and comparison are those of [string] (the
      middle dot of the focus column is the character 183);
    - a JSON record is a record of optional, typed fields, [None] for a key
      the record does not carry ([d.get(k, default)] is [default] there);
    - a [dict] is a [gmap]: every dictionary of the program is read through
      lookups and through [sorted] over its keys, never in insertion order;
    - an uncaught exception and [sys.exit] end the run: [result] and [IO]
      carry them, and [IO] keeps what was printed before.

    - the commands the program runs are events of the run: [Proc] records
      them with the printed lines, in order, and a [World] says how each
      command ends and what the environment holds.

    The file has five parts: the embedding of the program, the notions the
    statements are written with, the lemmas, the main results (C1 to C10)
    and further results on the rest of the program (numbered from X1). *)

From stdpp Require Import base option list sorting gmap strings pretty.
From Stdlib Require Import Ascii ZArith Lia.

Local Open Scope Z_scope.

(** ** Strings *)

Module Str.

(** [sep.join(parts)] *)
Fixpoint join (sep : string) (parts : list string) : string :=
  match parts with
  | [] => ""
  | [p] => p
  | p :: rest => p +:+ sep +:+ join sep rest
  end.

(** [s[:n]] *)
Fixpoint slice_to (n : nat) (s : string) : string :=
  match n, s with
  | O, _ => ""
  | S _, EmptyString => ""
  | S n', String c s' => String c (slice_to n' s')
  end.

(** [c.isspace()] on the code points below 256: the controls 9..13 and
    28..31, the space, NEL (133) and the no-break space (160). *)
Definition isspace (c : ascii) : bool :=
  let n := nat_of_ascii c in
  ((9 <=? n) && (n <=? 13) || (28 <=? n) && (n <=? 32)
   || (n =? 133) || (n =? 160))%nat.

Fixpoint lstrip (s : string) : string :=
  match s with
  | EmptyString => ""
  | String c s' => if isspace c then lstrip s' else s
  end.

Fixpoint rstrip (s : string) : string :=
  match s with
  | EmptyString => ""
  | String c s' =>
      match rstrip s' with
      | EmptyString => if isspace c then "" else String c ""
      | r => String c r
      end
  end.

(** [s.strip()] *)
Definition strip (s : string) : string := rstrip (lstrip s).

(** [bool(s)]: a string is true when it is not empty. *)
Definition truthy (s : string) : bool :=
  match s with EmptyString => false | _ => true end.

(** ["%2d" % n]: right-justified in a field of two characters. *)
Definition fmt_2d (n : Z) : string :=
  let s := pretty n in
  if (String.length s <? 2)%nat then " " +:+ s else s.

(** Whether the character [c] occurs in [s]. *)
Fixpoint mem (c : ascii) (s : string) : bool :=
  match s with
  | EmptyString => false
  | String d s' => bool_decide (c = d) || mem c s'
  end.

End Str.

(** ** Python's [sorted]

    [sorted(xs, key=k)] is a stable sort: elements with equal keys keep the
    order they have in [xs].  Insertion from the right is such a sort. *)

Section Sorted.
Context {A K : Type} (leb : K → K → bool) (key : A → K).

Fixpoint insert_sorted (x : A) (l : list A) : list A :=
  match l with
  | [] => [x]
  | y :: l' =>
      if leb (key x) (key y) then x :: y :: l' else y :: insert_sorted x l'
  end.

Definition sorted (l : list A) : list A := foldr insert_sorted [] l.
End Sorted.

(** ** Exceptions and output *)

Inductive exception : Type :=
| KeyError (key : string)
| SystemExit (code : Z).

Inductive result (A : Type) : Type :=
| Ok (a : A)
| Raise (e : exception).
Arguments Ok {A} a.
Arguments Raise {A} e.

Global Instance result_ret : MRet result := λ A a, Ok a.
Global Instance result_bind : MBind result := λ A B f m,
  match m with Ok a => f a | Raise e => Raise e end.

(** What a computation has printed, one entry per [print] call, and how it
    ended. *)
Record IO (A : Type) : Type :=
  MkIO { stdout : list string; outcome : result A }.
Arguments MkIO {A} stdout outcome.
Arguments stdout {A} _.
Arguments outcome {A} _.

Global Instance IO_ret : MRet IO := λ A a, MkIO [] (Ok a).
Global Instance IO_bind : MBind IO := λ A B f m,
  match outcome m with
  | Ok a => MkIO (stdout m ++ stdout (f a)) (outcome (f a))
  | Raise e => MkIO (stdout m) (Raise e)
  end.

Definition print (line : string) : IO unit := MkIO [line] (Ok tt).
Definition sys_exit {A} (code : Z) : IO A := MkIO [] (Raise (SystemExit code)).
Definition lift {A} (r : result A) : IO A := MkIO [] r.

(** The exit status of the process: 0 after a normal return, the code given
    to [sys.exit], 1 after an uncaught exception. *)
Definition exit_code {A} (r : IO A) : Z :=
  match outcome r with
  | Ok _ => 0
  | Raise (SystemExit code) => code
  | Raise (KeyError _) => 1
  end.

(** [for x in xs: body], threading the variables the body assigns. *)
Fixpoint for_each {M} `{!MBind M, !MRet M} {A S}
    (xs : list A) (body : S → A → M S) (s : S) : M S :=
  match xs with
  | [] => mret s
  | x :: xs' => s' ← body s x; for_each xs' body s'
  end.

(** [[x for x in xs if p(x)]], where [p] may raise. *)
Fixpoint comprehension_if {A} (p : A → result bool) (xs : list A)
    : result (list A) :=
  match xs with
  | [] => Ok []
  | x :: xs' =>
      b ← p x;
      rest ← comprehension_if p xs';
      mret (if b : bool then x :: rest else rest)
  end.

(** [any(p(x) for x in xs)]: stops at the first true element. *)
Fixpoint any_of {A} (p : A → result bool) (xs : list A) : result bool :=
  match xs with
  | [] => Ok false
  | x :: xs' => b ← p x; if b : bool then Ok true else any_of p xs'
  end.

(** ** The records yabai returns *)

Record Window : Type := MkWindow {
  w_app : option string;
  w_title : option string;
  w_space : option Z;
  w_is_hidden : option bool;
  w_is_minimized : option bool
}.

Record Space : Type := MkSpace {
  s_index : option Z;
  s_display : option Z;
  s_has_focus : option bool;
  s_is_visible : option bool;
  s_label : option string
}.

Global Instance Window_eq_dec : EqDecision Window.
Proof. solve_decision. Defined.

(** [w["app"]] *)
Definition getitem_app (w : Window) : result string :=
  match w_app w with
  | Some app => Ok app
  | None => Raise (KeyError "app")
  end.

Definition TERMINAL_APPS : gset string :=
  {[ "kitty"; "iTerm2"; "Terminal"; "Alacritty"; "WezTerm"; "Hyper"; "Rio";
     "Tabby" ]}.

(** [d[k] = [] if k not in d; d[k].append(x)] *)
Definition append_at `{Countable K} {A} (k : K) (x : A)
    (d : gmap K (list A)) : gmap K (list A) :=
  let d := match d !! k with None => <[k := []]> d | Some _ => d end in
  alter (λ l, l ++ [x]) k d.

Section Program.
(** [_COLOR], fixed when the module is loaded. *)
Variable COLOR : bool.

Definition ESC : string := String "027"%char "".

Definition _ansi (code text : string) : string :=
  if COLOR then ESC +:+ "[" +:+ code +:+ "m" +:+ text +:+ ESC +:+ "[0m"
  else text.

Definition dim (text : string) : string := _ansi "2" text.
Definition green (text : string) : string := _ansi "32" text.
Definition cyan (text : string) : string := _ansi "36" text.
Definition bold (text : string) : string := _ansi "1" text.
Definition yellow (text : string) : string := _ansi "33" text.

(** [w["app"] in TERMINAL_APPS] *)
Definition app_in_terminals (w : Window) : result bool :=
  app ← getitem_app w; mret (bool_decide (app ∈ TERMINAL_APPS)).

Definition app_not_in_terminals (w : Window) : result bool :=
  app ← getitem_app w; mret (negb (bool_decide (app ∈ TERMINAL_APPS))).

(** The body of [for w in terminals]. *)
Definition terminal_part (parts : list string) (w : Window)
    : result (list string) :=
  let title := Str.strip (default "" (w_title w)) in
  if Str.truthy title then
    let title :=
      if (50 <? String.length title)%nat
      then Str.slice_to 47 title +:+ "..." else title in
    app ← getitem_app w;
    mret (parts ++ [green (app +:+ ": " +:+ title)])
  else
    app ← getitem_app w;
    mret (parts ++ [green app]).

(** The body of [for w in others]. *)
Definition count_app (app_counts : gmap string nat) (w : Window)
    : result (gmap string nat) :=
  app ← getitem_app w;
  mret (<[app := (default 0 (app_counts !! app) + 1)%nat]> app_counts).

(** The body of [for app in sorted(app_counts)]; [app] is a key of
    [app_counts] there. *)
Definition other_part (app_counts : gmap string nat)
    (parts : list string) (app : string) : list string :=
  let count := app_counts !!! app in
  if (1 <? count)%nat
  then parts ++ [app +:+ " (" +:+ pretty count +:+ ")"]
  else parts ++ [app].

(** The list [parts] as it stands before the final [return]. *)
Definition format_parts (windows : list Window) : result (list string) :=
  terminals ← comprehension_if app_in_terminals windows;
  others ← comprehension_if app_not_in_terminals windows;
  parts ← for_each terminals terminal_part [];
  app_counts ← for_each others count_app ∅;
  mret (foldl (other_part app_counts) parts
          (sorted String.leb id (elements (dom app_counts)))).

Definition format_windows_for_space (windows : list Window)
    : result string :=
  match windows with
  | [] => Ok (dim "--")
  | _ =>
      parts ← format_parts windows;
      mret (match parts with [] => dim "--" | _ => Str.join "  " parts end)
  end.

(** *** [cli] *)

(** [w.get("space", 0)] and the three [continue] tests of the first loop of
    [cli]: whether the window is kept. *)
Definition kept (w : Window) : bool :=
  let space_index := default 0 (w_space w) in
  if space_index <=? 0 then false
  else if default false (w_is_hidden w) then false
  else if default false (w_is_minimized w) then false
  else true.

(** The loop [for w in raw_windows] that fills [windows_by_space]. *)
Definition index_window (windows_by_space : gmap Z (list Window))
    (w : Window) : gmap Z (list Window) :=
  let space_index := default 0 (w_space w) in
  if space_index <=? 0 then windows_by_space
  else if default false (w_is_hidden w) then windows_by_space
  else if default false (w_is_minimized w) then windows_by_space
  else append_at space_index w windows_by_space.

Definition index_windows (raw_windows : list Window)
    : gmap Z (list Window) :=
  foldl index_window ∅ raw_windows.

(** [s.get("display", 1)] and [s.get("index", 0)] *)
Definition space_display (s : Space) : Z := default 1 (s_display s).
Definition space_index (s : Space) : Z := default 0 (s_index s).

(** The loop [for s in raw_spaces] that fills [by_display]. *)
Definition group_space (by_display : gmap Z (list Space)) (s : Space)
    : gmap Z (list Space) :=
  let display := space_display s in
  append_at display s by_display.

Definition group_spaces (raw_spaces : list Space) : gmap Z (list Space) :=
  foldl group_space ∅ raw_spaces.

Definition MIDDLE_DOT : string := String "183"%char "".

(** The index lists [cli] accumulates. *)
Record Indices : Type := MkIndices {
  free_indices : list Z;
  terminal_indices : list Z
}.

(** The line printed for a space, given its window summary. *)
Definition space_line (space : Space) (win_text : string) : string :=
  let idx := space_index space in
  let label := default "" (s_label space) in
  let focused := default false (s_has_focus space) in
  let visible := default false (s_is_visible space) in
  let indicator := " " in
  let indicator := if focused then "*" else indicator in
  let indicator :=
    if negb focused && visible then MIDDLE_DOT else indicator in
  let label_text :=
    if Str.truthy label then dim ("[" +:+ label +:+ "] ") else "" in
  "  " +:+ Str.fmt_2d idx +:+ " " +:+ indicator +:+ "  "
    +:+ label_text +:+ win_text.

(** The body of [for space in spaces]. *)
Definition render_space (windows_by_space : gmap Z (list Window))
    (acc : Indices) (space : Space) : IO Indices :=
  let idx := space_index space in
  let wins := default [] (windows_by_space !! idx) in
  win_text ← lift (format_windows_for_space wins);
  let free := match wins with
              | [] => free_indices acc ++ [idx]
              | _ => free_indices acc
              end in
  has_terminal ← lift (any_of app_in_terminals wins);
  let terminal := if has_terminal : bool
                  then terminal_indices acc ++ [idx]
                  else terminal_indices acc in
  print (space_line space win_text);;
  mret (MkIndices free terminal).

(** The header line of a display. *)
Definition display_header (display_idx : Z) (n : nat) : string :=
  cyan ("display " +:+ pretty display_idx)
    +:+ dim (" (" +:+ pretty n +:+ " spaces)").

(** The body of [for display_idx in sorted(by_display)]. *)
Definition render_display (windows_by_space : gmap Z (list Window))
    (by_display : gmap Z (list Space))
    (acc : Indices) (display_idx : Z) : IO Indices :=
  let spaces := sorted Z.leb space_index (by_display !!! display_idx) in
  print (display_header display_idx (length spaces));;
  acc ← for_each spaces (render_space windows_by_space) acc;
  print "";;
  mret acc.

(** The summary line. *)
Definition summary_line (acc : Indices) : string :=
  let summary_parts := [] in
  let summary_parts :=
    match free_indices acc with
    | [] => summary_parts ++ [yellow "0 free"]
    | _ =>
        let free_list := Str.join ", " (pretty <$> free_indices acc) in
        summary_parts ++
          [green (pretty (length (free_indices acc)) +:+ " free")
           +:+ dim (" (" +:+ free_list +:+ ")")]
    end in
  let summary_parts :=
    match terminal_indices acc with
    | [] => summary_parts
    | _ =>
        let term_list := Str.join ", " (pretty <$> terminal_indices acc) in
        summary_parts ++
          [pretty (length (terminal_indices acc)) +:+ " with terminals"
           +:+ dim (" (" +:+ term_list +:+ ")")]
    end in
  Str.join "  " summary_parts.

(** The display loop of [cli], returning the two index lists. *)
Definition render_table (raw_spaces : list Space)
    (raw_windows : list Window) : IO Indices :=
  let windows_by_space := index_windows raw_windows in
  let by_display := group_spaces raw_spaces in
  for_each (sorted Z.leb id (elements (dom by_display)))
    (render_display windows_by_space by_display) (MkIndices [] []).

(** [cli], given what [query_yabai "spaces"], [query_yabai "windows"] and
    [get_tmux_sessions] return ([None] is Python's [None]). *)
Definition cli (yabai_spaces : option (list Space))
    (yabai_windows : option (list Window)) (tmux : list string)
    : IO unit :=
  match yabai_spaces with
  | None =>
      print "error: couldn't query yabai (is it running?)";;
      sys_exit 1
  | Some raw_spaces =>
      let raw_windows := default [] yabai_windows in
      acc ← render_table raw_spaces raw_windows;
      print (summary_line acc);;
      match tmux with
      | [] => mret tt
      | _ => print (dim ("tmux: " +:+ Str.join "  " tmux))
      end
  end.

End Program.

(** * Derived notions *)

(** [w.get("space", 0)] *)
Definition window_space (w : Window) : Z := default 0 (w_space w).

(** The kept windows of space [i], in source order. *)
Definition wins_at (raw_windows : list Window) (i : Z) : list Window :=
  filter (λ w, kept w ∧ window_space w = i) raw_windows.

(** The displays in the order [cli] prints them, the spaces of one display
    in the order it prints them, and all the spaces in that order. *)
Definition display_order (raw_spaces : list Space) : list Z :=
  sorted Z.leb id (elements (dom (group_spaces raw_spaces))).

Definition display_spaces (raw_spaces : list Space) (d : Z) : list Space :=
  sorted Z.leb space_index (group_spaces raw_spaces !!! d).

Definition visit_order (raw_spaces : list Space) : list Space :=
  display_order raw_spaces ≫= display_spaces raw_spaces.

(** [s1] is printed no later than [s2]: displays ascending, and space
    indices ascending within a display. *)
Definition visit_le (s1 s2 : Space) : Prop :=
  space_display s1 < space_display s2
  ∨ (space_display s1 = space_display s2 ∧ space_index s1 <= space_index s2).

(** The window record has an [app] key. *)
Definition has_app (w : Window) : Prop := is_Some (w_app w).

Global Instance has_app_dec w : Decision (has_app w).
Proof. unfold has_app. apply _. Defined.

(** The window's app is one of [TERMINAL_APPS]. *)
Definition terminal_app (w : Window) : bool :=
  match w_app w with
  | Some app => bool_decide (app ∈ TERMINAL_APPS)
  | None => false
  end.

(** The entry of a terminal window: [app: title], the title stripped and
    cut, or the app alone when the title is blank. *)
Definition terminal_entry (color : bool) (w : Window) : string :=
  let app := default "" (w_app w) in
  let title := Str.strip (default "" (w_title w)) in
  if Str.truthy title then
    green color (app +:+ ": " +:+
      (if (50 <? String.length title)%nat
       then Str.slice_to 47 title +:+ "..." else title))
  else green color app.

(** The entry of a non-terminal app with [n] windows. *)
Definition other_entry (n : nat) (app : string) : string :=
  if (1 <? n)%nat then app +:+ " (" +:+ pretty n +:+ ")" else app.

(** The dictionary [app_counts] after the loop over [others], started
    from [m]. *)
Definition count_apps (m : gmap string nat) (others : list Window)
    : gmap string nat :=
  foldl (λ m w, let app := default "" (w_app w) in
                <[app := (default 0 (m !! app) + 1)%nat]> m) m others.

(** The number of windows of [wins] whose app is [app]. *)
Definition app_count (wins : list Window) (app : string) : nat :=
  length (filter (λ w, w_app w = Some app) wins).

(** The distinct apps of the non-terminal windows, as [sorted] lists
    them. *)
Definition other_apps (wins : list Window) : list string :=
  sorted String.leb id
    (elements (dom (count_apps ∅ (filter (λ w, ¬ terminal_app w) wins)))).

(** The entries of a space whose windows all carry an app. *)
Definition summary_parts (color : bool) (wins : list Window) : list string :=
  (terminal_entry color <$> filter (λ w, terminal_app w) wins)
  ++ ((λ a, other_entry (app_count wins a) a) <$> other_apps wins).

Definition window_summary (color : bool) (wins : list Window) : string :=
  match wins with
  | [] => dim color "--"
  | _ => Str.join "  " (summary_parts color wins)
  end.

(** What visiting a space does to the index lists, [wins_of] giving the
    windows joined to each space index. *)
Definition visit (wins_of : Z → list Window) (acc : Indices) (s : Space)
    : Indices :=
  let idx := space_index s in
  MkIndices
    (match wins_of idx with
     | [] => free_indices acc ++ [idx]
     | _ => free_indices acc
     end)
    (if existsb terminal_app (wins_of idx)
     then terminal_indices acc ++ [idx]
     else terminal_indices acc).

(** The lines of the table when no window lacks an app. *)
Definition table_lines (color : bool) (raw_spaces : list Space)
    (raw_windows : list Window) : list string :=
  display_order raw_spaces ≫= λ d,
    display_header color d (length (display_spaces raw_spaces d))
    :: ((λ s, space_line color s
                (window_summary color (wins_at raw_windows (space_index s))))
        <$> display_spaces raw_spaces d)
    ++ [""].

(** The free and the terminal indices of a run, in the order the spaces are
    visited. *)
Definition free_in_order (raw_spaces : list Space)
    (raw_windows : list Window) : list Z :=
  space_index <$>
    filter (λ s, wins_at raw_windows (space_index s) = [])
      (visit_order raw_spaces).

Definition terminals_in_order (raw_spaces : list Space)
    (raw_windows : list Window) : list Z :=
  space_index <$>
    filter (λ s, Exists (λ w, terminal_app w)
                   (wins_at raw_windows (space_index s)))
      (visit_order raw_spaces).

(** The line [cli] prints for tmux, if any. *)
Definition tmux_line (color : bool) (tmux : list string) : list string :=
  match tmux with
  | [] => []
  | _ => [dim color ("tmux: " +:+ Str.join "  " tmux)]
  end.

(** A window that occupies no visible space: no positive space index,
    hidden, or minimized. *)
Definition excluded (w : Window) : Prop :=
  default 0 (w_space w) <= 0
  ∨ w_is_hidden w = Some true
  ∨ w_is_minimized w = Some true.

Global Instance excluded_dec w : Decision (excluded w).
Proof. unfold excluded. apply _. Defined.

(** A kept window whose space is the index of no listed space. *)
Definition orphan (raw_spaces : list Space) (w : Window) : Prop :=
  kept w ∧ window_space w ∉ (space_index <$> raw_spaces).

Global Instance orphan_dec raw_spaces w : Decision (orphan raw_spaces w).
Proof. unfold orphan. apply _. Defined.

Definition example_spaces : list Space :=
  [ MkSpace (Some 3) (Some 1) (Some true) (Some true) None;
    MkSpace (Some 1) (Some 2) None (Some true) (Some "web");
    MkSpace (Some 2) (Some 2) None None None ].

Definition example_windows : list Window :=
  [ MkWindow (Some "kitty") (Some "session-build") (Some 2) None None;
    MkWindow (Some "Finder") (Some "") (Some 2) (Some false) None;
    MkWindow (Some "Safari") None (Some 3) None (Some true) ].

Definition two_kitties : list Window :=
  [ MkWindow (Some "kitty") (Some "dev") (Some 1) None None;
    MkWindow (Some "Finder") None (Some 1) None None;
    MkWindow (Some "kitty") (Some "dev") (Some 1) None None ].

Definition mixed_windows : list Window :=
  [ MkWindow (Some "Safari") (Some "news") (Some 1) None None;
    MkWindow (Some "kitty") (Some "dev") (Some 1) None None;
    MkWindow (Some "Finder") None (Some 1) None None;
    MkWindow (Some "Safari") (Some "mail") (Some 1) None None ].

Definition long_title_window : Window :=
  MkWindow (Some "kitty")
    (Some "  0123456789012345678901234567890123456789012345678901234  ")
    (Some 1) None None.

(** The text of the placeholder. *)
Definition marker (color : bool) : string := dim color "--".

Definition dash_window : Window :=
  MkWindow (Some "--") (Some "notes") (Some 1) None None.




Definition bare_spaces : list Space :=
  [ MkSpace None None None None None;
    MkSpace (Some 1) None None (Some true) None ].

Definition bare_windows : list Window :=
  [ MkWindow (Some "kitty") None (Some 1) None None;
    MkWindow (Some "Finder") None None None None;
    MkWindow None None (Some 7) None None ].

Definition broken_windows : list Window :=
  [ MkWindow (Some "kitty") (Some "dev") (Some 1) None None;
    MkWindow None (Some "ghost") (Some 2) None None ].

Definition two_spaces : list Space :=
  [ MkSpace (Some 1) (Some 1) None None None;
    MkSpace (Some 2) (Some 1) None None None ].

(** ** Lines of text *)

Module Text.

Definition CR : ascii := "013"%char.
Definition LF : ascii := "010"%char.

(** The line boundaries of [str.splitlines] among the code points below
    256: the controls 10..13 and 28..30, and NEL (133). *)
Definition isbreak (c : ascii) : bool :=
  let n := nat_of_ascii c in
  ((10 <=? n) && (n <=? 13) || (28 <=? n) && (n <=? 30) || (n =? 133))%nat.

(** [s.splitlines()]: the lines of [s] without their line breaks; a
    carriage return followed by a line feed is one break, and a break at
    the very end opens no further line. *)
Fixpoint splitlines (s : string) : list string :=
  match s with
  | EmptyString => []
  | String c s' =>
      if isbreak c then
        match s' with
        | String d s'' =>
            if Ascii.eqb c CR && Ascii.eqb d LF
            then "" :: splitlines s''
            else "" :: splitlines s'
        | EmptyString => "" :: splitlines s'
        end
      else
        match splitlines s' with
        | [] => [String c ""]
        | line :: lines => String c line :: lines
        end
  end.

End Text.

(** ** The external commands *)

(** How [subprocess.run] ends, among the ways the program handles: the
    process completed, with its return code and the text [result.stdout];
    the executable was not found; the timeout expired. *)
Inductive proc_result : Type :=
| CompletedProcess (returncode : Z) (out : string)
| FileNotFoundError
| TimeoutExpired.

(** The body of [get_tmux_sessions] after [subprocess.run] has ended with
    [result]. *)
Definition tmux_reply (result : proc_result) : list string :=
  match result with
  | CompletedProcess returncode out =>
      if bool_decide (returncode ≠ 0) then []
      else
        Str.strip <$>
          filter (λ line, Str.truthy (Str.strip line))
            (Text.splitlines (Str.strip out))
  | FileNotFoundError | TimeoutExpired => []
  end.

(** Every character of [s] is whitespace. *)
Fixpoint blank (s : string) : bool :=
  match s with
  | EmptyString => true
  | String c s' => Str.isspace c && blank s'
  end.

(** No character of [s] is a line boundary. *)
Fixpoint unbroken (s : string) : bool :=
  match s with
  | EmptyString => true
  | String c s' => negb (Text.isbreak c) && unbroken s'
  end.

(** [s] is empty or begins with a character that is not whitespace. *)
Definition tight (s : string) : bool :=
  match s with
  | EmptyString => true
  | String c _ => negb (Str.isspace c)
  end.

(** The text made of the lines [lines], each ended by a line feed. *)
Definition unlines (lines : list string) : string :=
  foldr (λ line rest, line +:+ String Text.LF rest) "" lines.

Definition spaced_title_window : Window :=
  MkWindow (Some "kitty") (Some "   ") (Some 1) None None.

(** ** The program with its queries in place *)

(** What a run does that the outside sees, in order: the commands it
    executes and the lines it prints. *)
Inductive event : Type :=
| Exec (argv : list string)
| Print (line : string).

Record Proc (A : Type) : Type :=
  MkProc { events : list event; ending : result A }.
Arguments MkProc {A} events ending.
Arguments events {A} _.
Arguments ending {A} _.

Global Instance Proc_ret : MRet Proc := λ A a, MkProc [] (Ok a).
Global Instance Proc_bind : MBind Proc := λ A B f m,
  match ending m with
  | Ok a => MkProc (events m ++ events (f a)) (ending (f a))
  | Raise e => MkProc (events m) (Raise e)
  end.

(** What the program finds around it: the variable [NO_COLOR] of the
    environment, [sys.stdout.isatty()] ([None] when [sys.stdout] has no
    such attribute), and how each command ends. *)
Record World : Type := MkWorld {
  NO_COLOR : option string;
  stdout_isatty : option bool;
  commands : list string → proc_result
}.

(** [subprocess.run(argv, ...)] *)
Definition subprocess_run (world : World) (argv : list string)
    : Proc proc_result :=
  MkProc [Exec argv] (Ok (commands world argv)).

(** A computation that only prints. *)
Definition perform {A} (m : IO A) : Proc A :=
  MkProc (Print <$> stdout m) (outcome m).

(** [_use_color] *)
Definition _use_color (world : World) : bool :=
  if Str.truthy (default "" (NO_COLOR world)) then false
  else match stdout_isatty world with
       | Some isatty => isatty
       | None => false
       end.

Definition YABAI (domain : string) : list string :=
  ["yabai"; "-m"; "query"; "--" +:+ domain].

Definition TMUX : list string :=
  ["tmux"; "list-sessions"; "-F"; "#{session_name}:#{session_windows}w"].

(** The body of [query_yabai] after [subprocess.run] has ended with
    [result]; [loads] is [json.loads] followed by the reading of the
    parsed list as records, [None] when it raises [JSONDecodeError]. *)
Definition yabai_reply {A} (loads : string → option A)
    (result : proc_result) : option A :=
  match result with
  | CompletedProcess returncode out =>
      if bool_decide (returncode ≠ 0) then None else loads out
  | FileNotFoundError | TimeoutExpired => None
  end.

Definition query_yabai {A} (world : World) (loads : string → option A)
    (domain : string) : Proc (option A) :=
  result ← subprocess_run world (YABAI domain);
  mret (yabai_reply loads result).

Definition get_tmux_sessions (world : World) : Proc (list string) :=
  result ← subprocess_run world TMUX;
  mret (tmux_reply result).

Section Main.
(** [json.loads] on the output of the two yabai queries. *)
Variable loads_spaces : string → option (list Space).
Variable loads_windows : string → option (list Window).

(** The module run as a program: [_COLOR] is computed when it is loaded,
    then [cli] runs, each query where the source has it. *)
Definition main (world : World) : Proc unit :=
  let COLOR := _use_color world in
  raw_spaces ← query_yabai world loads_spaces "spaces";
  match raw_spaces with
  | None =>
      perform (print "error: couldn't query yabai (is it running?)");;
      perform (sys_exit 1)
  | Some raw_spaces =>
      raw_windows ← query_yabai world loads_windows "windows";
      let raw_windows := default [] raw_windows in
      acc ← perform (render_table COLOR raw_spaces raw_windows);
      perform (print (summary_line COLOR acc));;
      tmux ← get_tmux_sessions world;
      match tmux with
      | [] => mret tt
      | _ => perform (print (dim COLOR ("tmux: " +:+ Str.join "  " tmux)))
      end
  end.
End Main.

(** The commands a run executed and the lines it printed, in order. *)
Definition execs (evs : list event) : list (list string) :=
  omap (λ ev, match ev with Exec argv => Some argv | Print _ => None end) evs.

Definition prints (evs : list event) : list string :=
  omap (λ ev, match ev with Print line => Some line | Exec _ => None end) evs.

Definition sample_world : World :=
  MkWorld (Some "1") (Some true)
    (λ argv,
       if bool_decide (argv = TMUX)
       then CompletedProcess 0 (unlines ["dev:3w"])
       else CompletedProcess 0 "[]").

Definition failing_world : World :=
  MkWorld None (Some true) (λ argv, CompletedProcess 1 "").

(** ** Color as decoration *)

(** [s] with every escape sequence removed: the characters from an ESC to
    the next [m], both included. *)
Fixpoint erase_from (inside : bool) (s : string) : string :=
  match s with
  | EmptyString => ""
  | String c s' =>
      if inside then erase_from (negb (Ascii.eqb c "m")) s'
      else if Ascii.eqb c "027" then erase_from true s'
      else String c (erase_from false s')
  end.

Definition erase (s : string) : string := erase_from false s.

(** The run [m] with the escape sequences removed from what it printed. *)
Definition uncolored {A} (m : IO A) : IO A :=
  MkIO (erase <$> stdout m) (outcome m).

(** [s] holds no ESC character. *)
Definition plain (s : string) : Prop := Str.mem "027" s = false.

(** [e] is [e'] with decoration: read in front of any text, erasing
    leaves [e'] and goes on with the text. *)
Definition decorates (e e' : string) : Prop :=
  ∀ rest, erase (e +:+ rest) = e' +:+ erase rest.

(** The strings the program reads from its queries hold no ESC. *)
Definition plain_inputs (yabai_spaces : option (list Space))
    (yabai_windows : option (list Window)) (tmux : list string) : Prop :=
  Forall (λ s, plain (default "" (s_label s))) (default [] yabai_spaces)
  ∧ Forall (λ w, plain (default "" (w_app w))
                 ∧ plain (default "" (w_title w)))
      (default [] yabai_windows)
  ∧ Forall plain tmux.

Definition colorless_world (world : World) : World :=
  MkWorld (Some "1") (stdout_isatty world) (commands world).

Definition windowless_world : World :=
  MkWorld None None
    (λ argv,
       if bool_decide (argv = YABAI "spaces") then CompletedProcess 0 "[]"
       else if bool_decide (argv = YABAI "windows") then TimeoutExpired
       else FileNotFoundError).

(** The display and index of a space, which place it in the table. *)
Definition space_place (s : Space) : Z * Z :=
  (space_display s, space_index s).

(** What the window summary reads of a terminal window. *)
Definition terminal_view (w : Window) : option string * option string :=
  (w_app w, w_title w).

Definition shuffled_windows : list Window :=
  [ MkWindow (Some "Finder") (Some "home") (Some 1) None None;
    MkWindow (Some "Safari") None (Some 4) None None;
    MkWindow (Some "kitty") (Some "dev") (Some 7) (Some false) None;
    MkWindow (Some "Safari") None (Some 1) None None ].

(** ** The output, written out *)

(** [text] in the rendition [code] of the terminal: when [color] is set,
    between the escape sequence that selects the rendition and the one
    that resets it; bare otherwise. *)
Definition rendition (color : bool) (code text : string) : string :=
  if color
  then String "027" "[" +:+ code +:+ "m" +:+ text +:+ String "027" "[0m"
  else text.

(** The placeholder of a free space: two dashes, dimmed. *)
Definition placeholder_text (color : bool) : string :=
  rendition color "2" "--".

(** The header of display [d] with [n] spaces. *)
Definition header_text (color : bool) (d : Z) (n : nat) : string :=
  rendition color "36" ("display " +:+ pretty d)
  +:+ rendition color "2" (" (" +:+ pretty n +:+ " spaces)").

(** The focus column: a star for the focused space, a middle dot for a
    space that is visible without focus, a blank otherwise. *)
Definition focus_mark (s : Space) : string :=
  if default false (s_has_focus s) then "*"
  else if default false (s_is_visible s) then String "183" ""
  else " ".

(** The label of a space in brackets, dimmed; nothing for a space with no
    label or an empty one. *)
Definition label_text (color : bool) (s : Space) : string :=
  match s_label s with
  | None | Some EmptyString => ""
  | Some label => rendition color "2" ("[" +:+ label +:+ "] ")
  end.

(** The line of space [s] whose window summary is [win_text]. *)
Definition line_text (color : bool) (s : Space) (win_text : string)
    : string :=
  "  " +:+ Str.fmt_2d (default 0 (s_index s)) +:+ " " +:+ focus_mark s
  +:+ "  " +:+ label_text color s +:+ win_text.

(** The summary line for the free indices [free] and the indices
    [terminal] of the spaces with a terminal. *)
Definition summary_text (color : bool) (free terminal : list Z) : string :=
  match free with
  | [] => rendition color "33" "0 free"
  | _ =>
      rendition color "32" (pretty (length free) +:+ " free")
      +:+ rendition color "2"
            (" (" +:+ Str.join ", " (pretty <$> free) +:+ ")")
  end
  +:+
  match terminal with
  | [] => ""
  | _ =>
      "  " +:+ pretty (length terminal) +:+ " with terminals"
      +:+ rendition color "2"
            (" (" +:+ Str.join ", " (pretty <$> terminal) +:+ ")")
  end.

(** * Properties *)

(** ** [sorted] *)

Section SortedFacts.
Context {A K : Type} (leb : K → K → bool) (key : A → K).

Let R (x y : A) : Prop := leb (key x) (key y) = true.

Lemma insert_sorted_Permutation x l : insert_sorted leb key x l ≡ₚ x :: l.
Proof.
  induction l as [|y l IH]; simpl; [done|].
  destruct (leb (key x) (key y)); [done|].
  rewrite IH. apply Permutation_swap.
Qed.

Lemma sorted_Permutation l : sorted leb key l ≡ₚ l.
Proof.
  induction l as [|x l IH]; simpl; [done|].
  by rewrite insert_sorted_Permutation, IH.
Qed.

Lemma elem_of_sorted x l : x ∈ sorted leb key l ↔ x ∈ l.
Proof. by rewrite sorted_Permutation. Qed.

Hypothesis leb_total : ∀ a b, leb a b = true ∨ leb b a = true.
Hypothesis leb_trans :
  ∀ a b c, leb a b = true → leb b c = true → leb a c = true.

Lemma insert_sorted_StronglySorted x l :
  StronglySorted R l → StronglySorted R (insert_sorted leb key x l).
Proof.
  induction 1 as [|y l Hl IH Hy]; simpl.
  { repeat constructor. }
  destruct (leb (key x) (key y)) eqn:E.
  - constructor; [by constructor|].
    constructor; [done|].
    eapply Forall_impl; [exact Hy|]. intros z Hz. by eapply leb_trans.
  - constructor; [done|].
    rewrite insert_sorted_Permutation. constructor; [|done].
    by destruct (leb_total (key x) (key y)) as [E'|E']; [congruence|].
Qed.

Lemma sorted_StronglySorted l : StronglySorted R (sorted leb key l).
Proof.
  induction l as [|x l IH]; simpl; [constructor|].
  by apply insert_sorted_StronglySorted.
Qed.
End SortedFacts.

Lemma StronglySorted_mono {A} (R R' : A → A → Prop) (l : list A) :
  (∀ x y, R x y → R' x y) → StronglySorted R l → StronglySorted R' l.
Proof.
  intros HR. induction 1 as [|x l Hl IH Hx]; constructor; [done|].
  eapply Forall_impl; [exact Hx|]. intros y. apply HR.
Qed.

Lemma Zleb_total a b : (a <=? b) = true ∨ (b <=? a) = true.
Proof. lia. Qed.

Lemma Zleb_trans a b c :
  (a <=? b) = true → (b <=? c) = true → (a <=? c) = true.
Proof. lia. Qed.

Lemma Sleb_total a b : String.leb a b = true ∨ String.leb b a = true.
Proof. apply String.leb_total. Qed.

Lemma Sleb_trans a b c :
  String.leb a b = true → String.leb b c = true → String.leb a c = true.
Proof.
  intros H1 H2. apply Is_true_true.
  change (String.le a c). trans b; by apply Is_true_true.
Qed.

(** ** The monads *)

Lemma IO_bind_unfold {A B} (m : IO A) (f : A → IO B) :
  m ≫= f =
  match outcome m with
  | Ok a => MkIO (stdout m ++ stdout (f a)) (outcome (f a))
  | Raise e => MkIO (stdout m) (Raise e)
  end.
Proof. done. Qed.

Lemma for_each_ext_IO {A S} (xs : list A) (f g : S → A → IO S) (s : S) :
  (∀ x s', x ∈ xs → f s' x = g s' x) → for_each xs f s = for_each xs g s.
Proof.
  revert s. induction xs as [|x xs IH]; intros s Hfg; simpl; [done|].
  rewrite !IO_bind_unfold, (Hfg x s) by left.
  destruct (outcome (g s x)); [|done].
  rewrite IH; [done|]. intros y s' Hy. apply Hfg. by right.
Qed.

(** A loop whose body prints [out x] and updates the state by [upd]
    without raising prints all of it and folds the update. *)
Lemma for_each_pure {A S} (xs : list A) (body : S → A → IO S)
    (out : A → list string) (upd : S → A → S) (s : S) :
  (∀ x s', x ∈ xs → body s' x = MkIO (out x) (Ok (upd s' x))) →
  for_each xs body s = MkIO (xs ≫= out) (Ok (foldl upd s xs)).
Proof.
  revert s. induction xs as [|x xs IH]; intros s Hb; simpl; [done|].
  rewrite IO_bind_unfold, (Hb x s) by left. simpl.
  rewrite IH; [done|]. intros y s' Hy. apply Hb. by right.
Qed.

Lemma foldl_bind {A B S} (f : S → B → S) (g : A → list B) (xs : list A) s :
  foldl f s (xs ≫= g) = foldl (λ s' x, foldl f s' (g x)) s xs.
Proof.
  revert s. induction xs as [|x xs IH]; intros s; csimpl; [done|].
  by rewrite foldl_app, IH.
Qed.

Lemma foldl_ext {A B} (f g : A → B → A) (l : list B) (a : A) :
  (∀ a' x, f a' x = g a' x) → foldl f a l = foldl g a l.
Proof.
  intros Hfg. revert a. induction l as [|x l IH]; intros a; simpl; [done|].
  by rewrite Hfg, IH.
Qed.

Lemma Forall_filter_keep {A} (P Q : A → Prop) `{∀ x, Decision (Q x)} l :
  Forall P l → Forall P (filter Q l).
Proof.
  rewrite !Forall_forall. intros HP x [_ Hx]%list_elem_of_filter. by apply HP.
Qed.

Lemma bind_ext_elem_of {A B} (f g : A → list B) (l : list A) :
  (∀ x, x ∈ l → f x = g x) → l ≫= f = l ≫= g.
Proof.
  induction l as [|x l IH]; intros Hfg; csimpl; [done|].
  rewrite (Hfg x) by left. rewrite IH; [done|].
  intros y Hy. apply Hfg. by right.
Qed.

(** ** Dictionaries of lists *)

Section AppendAt.
Context `{Countable K} {A : Type}.
Implicit Types (d : gmap K (list A)) (k i : K) (x : A).

Lemma lookup_append_at d k x i :
  append_at k x d !! i =
  if decide (k = i) then Some (default [] (d !! k) ++ [x]) else d !! i.
Proof.
  unfold append_at. case_decide as Hk.
  - subst i. destruct (d !! k) as [l|] eqn:E.
    + by rewrite lookup_alter_eq, E.
    + by rewrite lookup_alter_eq, lookup_insert_eq.
  - rewrite lookup_alter_ne by done.
    destruct (d !! k); [done|]. by rewrite lookup_insert_ne.
Qed.

(** A loop that appends the elements satisfying [p] at their key [key]
    leaves, at every key, the elements of that key in source order. *)
Lemma lookup_foldl_append_at (p : A → bool) (key : A → K) xs d i :
  default [] (foldl (λ d x, if p x then append_at (key x) x d else d) d xs
                !! i)
  = default [] (d !! i) ++ filter (λ x, p x ∧ key x = i) xs.
Proof.
  revert d. induction xs as [|x xs IH]; intros d; simpl.
  { by rewrite app_nil_r. }
  rewrite IH. destruct (p x) eqn:Hp.
  - rewrite lookup_append_at. case_decide as Hk.
    + subst i. rewrite filter_cons_True by (by rewrite Hp).
      simpl. by rewrite <- app_assoc.
    + rewrite filter_cons_False; [done|]. by intros [_ ?].
  - rewrite filter_cons_False; [done|]. rewrite Hp. by intros [? _].
Qed.

Lemma dom_foldl_append_at (p : A → bool) (key : A → K) xs d i :
  i ∈ dom (foldl (λ d x, if p x then append_at (key x) x d else d) d xs)
  ↔ i ∈ dom d ∨ ∃ x, x ∈ xs ∧ p x ∧ key x = i.
Proof.
  revert d. induction xs as [|x xs IH]; intros d; simpl.
  { split; [by left|]. intros [?|(?&?%elem_of_nil&_)]; done. }
  rewrite IH. destruct (p x) eqn:Hp.
  - rewrite elem_of_dom, lookup_append_at. case_decide as Hk.
    + subst i. split; [|by eauto]. intros _. right. exists x.
      split; [by left|]. by rewrite Hp.
    + rewrite <- elem_of_dom. split.
      * intros [?|(y&Hy&?)]; [by left|]. right. exists y.
        split; [by right|done].
      * intros [?|(y&Hy&Hpy&Hky)]; [by left|].
        apply elem_of_cons in Hy as [->|Hy]; [done|]. right. eauto.
  - split.
    + intros [?|(y&Hy&?)]; [by left|]. right. exists y.
      split; [by right|done].
    + intros [?|(y&Hy&Hpy&Hky)]; [by left|].
      apply elem_of_cons in Hy as [->|Hy]; [by rewrite Hp in Hpy|].
      right. eauto.
Qed.
End AppendAt.

(** ** Joining windows to spaces *)

Lemma index_window_kept m w :
  index_window m w = if kept w then append_at (window_space w) w m else m.
Proof.
  unfold index_window, kept, window_space.
  by repeat (case_match; try done).
Qed.

Lemma lookup_index_windows raw_windows i :
  default [] (index_windows raw_windows !! i) = wins_at raw_windows i.
Proof.
  unfold index_windows, wins_at.
  rewrite (foldl_ext _
             (λ d w, if kept w then append_at (window_space w) w d else d))
    by (intros; apply index_window_kept).
  by rewrite lookup_foldl_append_at, lookup_empty.
Qed.

Lemma index_windows_Forall_kept raw_windows :
  map_Forall (λ _ wins, Forall (λ w, kept w = true) wins)
    (index_windows raw_windows).
Proof.
  intros i wins Hi. apply Forall_forall. intros w Hw.
  pose proof (lookup_index_windows raw_windows i) as E.
  rewrite Hi in E. simpl in E. rewrite E in Hw.
  apply list_elem_of_filter in Hw as [[Hk _] _]. by apply Is_true_true.
Qed.

Lemma lookup_group_spaces raw_spaces d :
  group_spaces raw_spaces !!! d
  = filter (λ s, space_display s = d) raw_spaces.
Proof.
  unfold group_spaces. rewrite lookup_total_alt.
  etrans;
    [exact (lookup_foldl_append_at (λ _, true) space_display raw_spaces ∅ d)|].
  rewrite lookup_empty. simpl. apply list_filter_iff.
  intros s. split; [by intros [_ ?]|by intros ?; split].
Qed.

Lemma elem_of_dom_group_spaces raw_spaces d :
  d ∈ dom (group_spaces raw_spaces)
  ↔ ∃ s, s ∈ raw_spaces ∧ space_display s = d.
Proof.
  unfold group_spaces.
  etrans;
    [exact (dom_foldl_append_at (λ _, true) space_display raw_spaces ∅ d)|].
  rewrite dom_empty, elem_of_empty. split.
  - intros [[]|(s & Hs & _ & Hd)]. by exists s.
  - intros (s & Hs & Hd). right. by exists s.
Qed.

Lemma elem_of_display_order raw_spaces d :
  d ∈ display_order raw_spaces ↔ ∃ s, s ∈ raw_spaces ∧ space_display s = d.
Proof.
  unfold display_order.
  by rewrite elem_of_sorted, elem_of_elements, elem_of_dom_group_spaces.
Qed.

Lemma NoDup_display_order raw_spaces : NoDup (display_order raw_spaces).
Proof.
  unfold display_order. rewrite sorted_Permutation. apply NoDup_elements.
Qed.

Lemma display_order_sorted raw_spaces :
  StronglySorted Z.le (display_order raw_spaces).
Proof.
  unfold display_order.
  eapply StronglySorted_mono;
    [|apply (sorted_StronglySorted Z.leb id Zleb_total Zleb_trans)].
  intros a b. unfold id. lia.
Qed.

Lemma elem_of_display_spaces raw_spaces d s :
  s ∈ display_spaces raw_spaces d ↔ s ∈ raw_spaces ∧ space_display s = d.
Proof.
  unfold display_spaces.
  rewrite elem_of_sorted, lookup_group_spaces, list_elem_of_filter.
  split; intros [? ?]; by split.
Qed.

Lemma group_by_key_Permutation {A} (key : A → Z) (ds : list Z) (l : list A) :
  NoDup ds → (∀ x, x ∈ l → key x ∈ ds) →
  ds ≫= (λ d, filter (λ x, key x = d) l) ≡ₚ l.
Proof.
  revert l. induction ds as [|d ds IH]; intros l Hnd Hcov.
  { destruct l as [|x l]; [done|].
    specialize (Hcov x ltac:(left)). by apply elem_of_nil in Hcov. }
  apply NoDup_cons in Hnd as [Hd Hnd]. rewrite bind_cons.
  trans (filter (λ x, key x = d) l ++ filter (λ x, ¬ key x = d) l);
    [|apply filter_app_complement].
  apply Permutation_app; [done|].
  etrans; [|apply (IH (filter (λ x, ¬ key x = d) l)); [done|]].
  - erewrite bind_ext_elem_of; [done|]. intros d' Hd'. simpl.
    rewrite list_filter_filter. apply list_filter_iff.
    intros x. split; [intros ->; split; [done|congruence]|by intros [? _]].
  - intros x [Hx Hxl]%list_elem_of_filter.
    specialize (Hcov x Hxl). apply elem_of_cons in Hcov as [?|?]; done.
Qed.

Lemma bind_Permutation_pointwise {A B} (f g : A → list B) (l : list A) :
  (∀ x, f x ≡ₚ g x) → l ≫= f ≡ₚ l ≫= g.
Proof.
  intros Hfg. induction l as [|x l IH]; [done|].
  rewrite !bind_cons. by apply Permutation_app.
Qed.

Lemma visit_order_Permutation raw_spaces : visit_order raw_spaces ≡ₚ raw_spaces.
Proof.
  unfold visit_order.
  trans (display_order raw_spaces
           ≫= (λ d, filter (λ s, space_display s = d) raw_spaces)).
  - apply bind_Permutation_pointwise. intros d. unfold display_spaces.
    by rewrite sorted_Permutation, lookup_group_spaces.
  - apply group_by_key_Permutation; [apply NoDup_display_order|].
    intros s Hs. apply elem_of_display_order. eauto.
Qed.

Lemma display_spaces_sorted raw_spaces d :
  StronglySorted visit_le (display_spaces raw_spaces d).
Proof.
  assert (Forall (λ s, space_display s = d) (display_spaces raw_spaces d))
    as Hd.
  { apply Forall_forall. by intros s [_ ?]%elem_of_display_spaces. }
  pose proof (sorted_StronglySorted Z.leb space_index Zleb_total Zleb_trans
                (group_spaces raw_spaces !!! d)) as Hs.
  fold (display_spaces raw_spaces d) in Hs.
  induction Hs as [|s l Hl IH Hsl]; [constructor|].
  apply Forall_cons in Hd as [Hs Hd].
  constructor; [by apply IH|].
  apply Forall_forall. intros s' Hs'. right.
  rewrite Forall_forall in Hd, Hsl.
  split; [by rewrite (Hd s' Hs')|]. apply Z.leb_le. by apply Hsl.
Qed.

Lemma blocks_sorted raw_spaces (ds : list Z) :
  StronglySorted Z.le ds → NoDup ds →
  StronglySorted visit_le (ds ≫= display_spaces raw_spaces).
Proof.
  induction 1 as [|d ds Hds IH Hd]; intros Hnd; [constructor|].
  apply NoDup_cons in Hnd as [Hnotin Hnd]. rewrite bind_cons.
  apply StronglySorted_app_2;
    [|apply display_spaces_sorted|by apply IH].
  intros s1 s2 [_ H1]%elem_of_display_spaces
    (d' & [_ H2]%elem_of_display_spaces & Hd')%list_elem_of_bind.
  left. rewrite H1, H2.
  rewrite Forall_forall in Hd. specialize (Hd d' Hd').
  assert (d ≠ d') by (by intros ->). lia.
Qed.

Lemma visit_order_sorted raw_spaces :
  StronglySorted visit_le (visit_order raw_spaces).
Proof.
  apply blocks_sorted;
    [apply display_order_sorted|apply NoDup_display_order].
Qed.

(** ** Formatting the windows of one space *)

Lemma result_bind_Ok {A B} (a : A) (f : A → result B) : Ok a ≫= f = f a.
Proof. done. Qed.

Lemma app_in_terminals_ok w :
  has_app w → app_in_terminals w = Ok (terminal_app w).
Proof.
  intros [a Ha]. unfold app_in_terminals, getitem_app, terminal_app.
  by rewrite Ha.
Qed.

Lemma app_not_in_terminals_ok w :
  has_app w → app_not_in_terminals w = Ok (negb (terminal_app w)).
Proof.
  intros [a Ha]. unfold app_not_in_terminals, getitem_app, terminal_app.
  by rewrite Ha.
Qed.

Lemma app_in_terminals_raise w :
  ¬ has_app w → app_in_terminals w = Raise (KeyError "app").
Proof.
  unfold has_app, app_in_terminals, getitem_app.
  destruct (w_app w); [|done]. intros []. by eexists.
Qed.

Lemma comprehension_if_ok {A} (p : A → result bool) (q : A → bool) xs :
  Forall (λ x, p x = Ok (q x)) xs →
  comprehension_if p xs = Ok (filter (λ x, q x) xs).
Proof.
  induction 1 as [|x xs Hx _ IH]; simpl; [done|].
  rewrite Hx, IH, !result_bind_Ok. unfold mret, result_ret.
  destruct (q x) eqn:E.
  - rewrite filter_cons_True; [done|]. by apply Is_true_true.
  - rewrite filter_cons_False; [done|]. intros ?%Is_true_true. congruence.
Qed.

Lemma any_of_ok {A} (p : A → result bool) (q : A → bool) xs :
  Forall (λ x, p x = Ok (q x)) xs → any_of p xs = Ok (existsb q xs).
Proof.
  induction 1 as [|x xs Hx _ IH]; simpl; [done|].
  rewrite Hx, result_bind_Ok. by destruct (q x).
Qed.

Section Format.
Variable COLOR : bool.

Lemma terminal_part_ok parts w :
  has_app w →
  terminal_part COLOR parts w = Ok (parts ++ [terminal_entry COLOR w]).
Proof.
  intros [a Ha]. unfold terminal_part, terminal_entry, getitem_app.
  rewrite Ha. simpl. by case_match.
Qed.

Lemma for_each_terminal_part terminals parts :
  Forall has_app terminals →
  for_each terminals (terminal_part COLOR) parts
  = Ok (parts ++ (terminal_entry COLOR <$> terminals)).
Proof.
  intros Hall. revert parts.
  induction Hall as [|w ws Hw _ IH]; intros parts; simpl.
  { by rewrite app_nil_r. }
  rewrite terminal_part_ok, result_bind_Ok, IH by done.
  by rewrite <- app_assoc.
Qed.

Lemma foldl_other_part counts parts apps :
  foldl (other_part counts) parts apps
  = parts ++ ((λ a, other_entry (counts !!! a) a) <$> apps).
Proof.
  revert parts. induction apps as [|a apps IH]; intros parts; simpl.
  { by rewrite app_nil_r. }
  rewrite IH. unfold other_part, other_entry.
  case_match; by rewrite <- app_assoc.
Qed.

End Format.

Lemma for_each_count_app others m :
  Forall has_app others → for_each others count_app m = Ok (count_apps m others).
Proof.
  intros Hall. revert m.
  induction Hall as [|w ws [a Ha] _ IH]; intros m; simpl; [done|].
  assert (count_app m w
          = Ok (<[a := (default 0 (m !! a) + 1)%nat]> m)) as ->.
  { unfold count_app, getitem_app. by rewrite Ha. }
  rewrite result_bind_Ok, IH. by rewrite Ha.
Qed.

Lemma lookup_count_apps m others a :
  Forall has_app others →
  default 0%nat (count_apps m others !! a)
  = (default 0 (m !! a) + app_count others a)%nat.
Proof.
  unfold app_count. intros Hall. revert m.
  induction Hall as [|w ws [b Hb] _ IH]; intros m; simpl; [lia|].
  unfold count_apps in *. simpl. rewrite IH, Hb. simpl.
  destruct (decide (b = a)) as [->|Hne].
  - rewrite lookup_insert_eq, filter_cons_True by done. simpl. lia.
  - rewrite lookup_insert_ne, filter_cons_False by congruence. done.
Qed.

Lemma elem_of_dom_count_apps m others a :
  Forall has_app others →
  a ∈ dom (count_apps m others)
  ↔ a ∈ dom m ∨ ∃ w, w ∈ others ∧ w_app w = Some a.
Proof.
  intros Hall. revert m.
  induction Hall as [|w ws [b Hb] _ IH]; intros m.
  { simpl. split; [by left|]. by intros [?|(?&?%elem_of_nil&_)]. }
  unfold count_apps in *. simpl. rewrite IH, Hb. simpl.
  rewrite dom_insert_L, elem_of_union, elem_of_singleton. split.
  - intros [[->|?]|(w'&?&?)]; [right; exists w; split; [left|done]|by left|].
    right. exists w'. split; [by right|done].
  - intros [?|(w'&[->|?]%elem_of_cons&Hw')]; [by left; right| |by right; eauto].
    left; left. congruence.
Qed.

Lemma elem_of_other_apps wins a :
  Forall has_app wins →
  a ∈ other_apps wins
  ↔ (a ∉ TERMINAL_APPS) ∧ ∃ w, w ∈ wins ∧ w_app w = Some a.
Proof.
  intros Hall. unfold other_apps.
  rewrite elem_of_sorted, elem_of_elements, elem_of_dom_count_apps
    by (by apply Forall_filter_keep).
  rewrite dom_empty, elem_of_empty. split.
  - intros [[]|(w & [Hw Hin]%list_elem_of_filter & Ha)].
    split; [|by eauto]. intros Hterm. apply Hw.
    unfold terminal_app. rewrite Ha. by apply bool_decide_pack.
  - intros [Hnt (w & Hin & Ha)]. right. exists w. split; [|done].
    apply list_elem_of_filter. split; [|done].
    unfold terminal_app. rewrite Ha. by intros ?%bool_decide_unpack.
Qed.

Lemma other_apps_NoDup wins : NoDup (other_apps wins).
Proof. unfold other_apps. rewrite sorted_Permutation. apply NoDup_elements. Qed.

Lemma other_apps_sorted wins : StronglySorted String.le (other_apps wins).
Proof.
  eapply StronglySorted_mono;
    [|apply (sorted_StronglySorted String.leb id Sleb_total Sleb_trans)].
  intros a b H. by apply Is_true_true.
Qed.

Section FormatParts.
Variable COLOR : bool.

(** The parts of a space whose windows all carry an app: one entry per
    terminal window, then one per distinct other app. *)
Lemma format_parts_ok wins :
  Forall has_app wins →
  format_parts COLOR wins
  = Ok ((terminal_entry COLOR <$> filter (λ w, terminal_app w) wins)
        ++ ((λ a, other_entry (app_count wins a) a) <$> other_apps wins)).
Proof.
  intros Hall. unfold format_parts.
  rewrite (comprehension_if_ok app_in_terminals terminal_app)
    by (eapply Forall_impl; [done|apply app_in_terminals_ok]).
  rewrite (comprehension_if_ok app_not_in_terminals
             (λ w, negb (terminal_app w)))
    by (eapply Forall_impl; [done|apply app_not_in_terminals_ok]).
  rewrite !result_bind_Ok.
  rewrite for_each_terminal_part by (by apply Forall_filter_keep).
  rewrite result_bind_Ok.
  assert (filter (λ w, negb (terminal_app w)) wins
          = filter (λ w, ¬ terminal_app w) wins) as ->.
  { apply list_filter_iff. intros w. apply negb_True. }
  rewrite for_each_count_app by (by apply Forall_filter_keep).
  rewrite result_bind_Ok. unfold mret, result_ret. f_equal.
  rewrite foldl_other_part. simpl. f_equal.
  apply Forall_fmap_ext, Forall_forall. intros a Ha. f_equal.
  rewrite lookup_total_alt.
  rewrite lookup_count_apps by (by apply Forall_filter_keep).
  rewrite lookup_empty. simpl. unfold app_count.
  rewrite list_filter_filter. f_equal. apply list_filter_iff.
  intros w. split; [by intros [? _]|]. intros Hw. split; [done|].
  apply elem_of_other_apps in Ha as [Hnt _]; [|done].
  unfold terminal_app. rewrite Hw. by intros ?%bool_decide_unpack.
Qed.
End FormatParts.

(** ** Strings: lengths and prefixes *)

Lemma str_app_cons c s1 s2 : String c s1 +:+ s2 = String c (s1 +:+ s2).
Proof. done. Qed.

Lemma str_length_app s1 s2 :
  String.length (s1 +:+ s2) = (String.length s1 + String.length s2)%nat.
Proof.
  induction s1 as [|c s1 IH]; [done|].
  rewrite str_app_cons. simpl. by rewrite IH.
Qed.

Lemma slice_to_length n s :
  String.length (Str.slice_to n s) = (n `min` String.length s)%nat.
Proof.
  revert s. induction n as [|n IH]; intros [|c s]; simpl; [done..|].
  by rewrite IH.
Qed.

Lemma slice_to_prefix n s : ∃ rest, s = Str.slice_to n s +:+ rest.
Proof.
  revert s. induction n as [|n IH]; intros s.
  { exists s. by destruct s. }
  destruct s as [|c s]; [by exists ""|].
  destruct (IH s) as [rest Hrest]. exists rest. simpl.
  by rewrite str_app_cons, <- Hrest.
Qed.

Lemma truthy_ne_empty s : s ≠ "" → Str.truthy s = true.
Proof. by destruct s. Qed.

(** ** The window summary of a space *)

Section Summary.
Variable COLOR : bool.

Lemma summary_parts_nonempty wins :
  Forall has_app wins → wins ≠ [] → summary_parts COLOR wins ≠ [].
Proof.
  intros Hall Hne. destruct wins as [|w wins]; [done|]. clear Hne.
  unfold summary_parts. destruct (terminal_app w) eqn:Hterm.
  - rewrite filter_cons_True by (by apply Is_true_true). done.
  - pose proof (Forall_inv Hall) as [a Ha].
    assert (a ∈ other_apps (w :: wins)) as Hin.
    { apply elem_of_other_apps; [done|]. split; [|exists w; split; [left|done]].
      unfold terminal_app in Hterm. rewrite Ha in Hterm.
      by apply bool_decide_eq_false in Hterm. }
    intros [_ E]%app_eq_nil. apply fmap_nil_inv in E.
    rewrite E in Hin. by apply elem_of_nil in Hin.
Qed.

Lemma format_windows_for_space_ok wins :
  Forall has_app wins →
  format_windows_for_space COLOR wins = Ok (window_summary COLOR wins).
Proof.
  intros Hall. destruct wins as [|w wins]; [done|].
  unfold format_windows_for_space, window_summary.
  rewrite format_parts_ok by done. fold (summary_parts COLOR (w :: wins)).
  rewrite result_bind_Ok.
  pose proof (summary_parts_nonempty (w :: wins) Hall) as Hne.
  destruct (summary_parts COLOR (w :: wins)); [by destruct Hne|done].
Qed.

Lemma format_windows_for_space_raise wins :
  ¬ Forall has_app wins →
  format_windows_for_space COLOR wins = Raise (KeyError "app").
Proof.
  intros Hnot. destruct wins as [|w wins]; [by destruct Hnot|].
  unfold format_windows_for_space, format_parts.
  assert (comprehension_if app_in_terminals (w :: wins)
          = Raise (KeyError "app")) as ->; [|done].
  revert Hnot. generalize (w :: wins). clear. intros l.
  induction l as [|x l IH]; intros Hnot; [by destruct Hnot|]. simpl.
  destruct (decide (has_app x)) as [Hx|Hx].
  - rewrite app_in_terminals_ok, result_bind_Ok by done.
    rewrite IH; [done|]. intros Hl. apply Hnot. by constructor.
  - by rewrite app_in_terminals_raise.
Qed.

End Summary.

(** ** Rendering the table *)

Lemma bind_singleton_fmap {A B} (f : A → B) (l : list A) :
  l ≫= (λ x, [f x]) = f <$> l.
Proof. induction l as [|x l IH]; csimpl; [done|]. by rewrite IH. Qed.

Section Render.
Variable COLOR : bool.

Lemma render_space_ok wbs acc s :
  Forall has_app (default [] (wbs !! space_index s)) →
  render_space COLOR wbs acc s
  = MkIO [space_line COLOR s
            (window_summary COLOR (default [] (wbs !! space_index s)))]
      (Ok (visit (λ i, default [] (wbs !! i)) acc s)).
Proof.
  intros Hall. unfold render_space, visit.
  rewrite format_windows_for_space_ok by done.
  rewrite (any_of_ok app_in_terminals terminal_app)
    by (eapply Forall_impl; [done|apply app_in_terminals_ok]).
  by rewrite !IO_bind_unfold.
Qed.

Lemma render_space_raise wbs acc s :
  ¬ Forall has_app (default [] (wbs !! space_index s)) →
  render_space COLOR wbs acc s = MkIO [] (Raise (KeyError "app")).
Proof.
  intros Hnot. unfold render_space.
  by rewrite format_windows_for_space_raise.
Qed.

Lemma render_space_ext wbs1 wbs2 acc s :
  default [] (wbs1 !! space_index s) = default [] (wbs2 !! space_index s) →
  render_space COLOR wbs1 acc s = render_space COLOR wbs2 acc s.
Proof. intros E. unfold render_space. by rewrite E. Qed.

Lemma render_display_unfold wbs by_display acc d :
  render_display COLOR wbs by_display acc d =
  let spaces := sorted Z.leb space_index (by_display !!! d) in
  let r := for_each spaces (render_space COLOR wbs) acc in
  MkIO (display_header COLOR d (length spaces) :: stdout r
          ++ match outcome r with Ok _ => [""] | Raise _ => [] end)
    (outcome r).
Proof.
  unfold render_display. rewrite !IO_bind_unfold. simpl.
  destruct (outcome (for_each _ _ acc)); simpl; [done|].
  by rewrite app_nil_r.
Qed.

Lemma render_table_ok raw_spaces raw_windows :
  (∀ s, s ∈ raw_spaces →
        Forall has_app (wins_at raw_windows (space_index s))) →
  render_table COLOR raw_spaces raw_windows
  = MkIO (table_lines COLOR raw_spaces raw_windows)
      (Ok (foldl (visit (wins_at raw_windows)) (MkIndices [] [])
             (visit_order raw_spaces))).
Proof.
  intros Hall. unfold render_table, table_lines, visit_order.
  rewrite foldl_bind.
  apply (for_each_pure _ _ _
           (λ acc d, foldl (visit (wins_at raw_windows)) acc
                       (display_spaces raw_spaces d))).
  intros d acc Hd. rewrite render_display_unfold.
  fold (display_spaces raw_spaces d). cbv zeta.
  rewrite (for_each_pure _ _
             (λ s, [space_line COLOR s
                      (window_summary COLOR
                         (wins_at raw_windows (space_index s)))])
             (visit (wins_at raw_windows))).
  - simpl. by rewrite bind_singleton_fmap.
  - intros s acc' [Hs _]%elem_of_display_spaces.
    rewrite render_space_ok; rewrite !lookup_index_windows; [|by apply Hall].
    f_equal. f_equal. unfold visit. by rewrite !lookup_index_windows.
Qed.

Lemma render_table_ext raw_spaces ws1 ws2 :
  (∀ s, s ∈ raw_spaces →
        wins_at ws1 (space_index s) = wins_at ws2 (space_index s)) →
  render_table COLOR raw_spaces ws1 = render_table COLOR raw_spaces ws2.
Proof.
  intros Hsame. unfold render_table. apply for_each_ext_IO.
  intros d acc Hd. rewrite !render_display_unfold. cbv zeta.
  rewrite (for_each_ext_IO _ (render_space COLOR (index_windows ws1))
             (render_space COLOR (index_windows ws2))); [done|].
  intros s acc' Hs. apply render_space_ext.
  rewrite !lookup_index_windows. apply Hsame.
  fold (display_spaces raw_spaces d) in Hs.
  by apply elem_of_display_spaces in Hs as [? _].
Qed.

Lemma free_indices_foldl_visit wins_of acc l :
  free_indices (foldl (visit wins_of) acc l)
  = free_indices acc
    ++ (space_index <$> filter (λ s, wins_of (space_index s) = []) l).
Proof.
  revert acc. induction l as [|s l IH]; intros acc; simpl.
  { by rewrite app_nil_r. }
  rewrite IH. unfold visit. simpl.
  destruct (wins_of (space_index s)) eqn:E.
  - rewrite filter_cons_True by done. by rewrite <- app_assoc.
  - by rewrite filter_cons_False by (by rewrite E).
Qed.

Lemma terminal_indices_foldl_visit wins_of acc l :
  terminal_indices (foldl (visit wins_of) acc l)
  = terminal_indices acc
    ++ (space_index <$>
          filter (λ s, Exists (λ w, terminal_app w) (wins_of (space_index s)))
            l).
Proof.
  revert acc. induction l as [|s l IH]; intros acc; simpl.
  { by rewrite app_nil_r. }
  rewrite IH. unfold visit. simpl.
  destruct (existsb terminal_app (wins_of (space_index s))) eqn:E.
  - rewrite filter_cons_True; [by rewrite <- app_assoc|].
    apply existb_True. by apply Is_true_true.
  - rewrite filter_cons_False; [done|].
    intros ?%existb_True%Is_true_true. congruence.
Qed.

End Render.

(** ** The whole run *)

Lemma Indices_eq (a b : Indices) :
  free_indices a = free_indices b →
  terminal_indices a = terminal_indices b → a = b.
Proof. destruct a, b. simpl. by intros -> ->. Qed.

Section Run.
Variable COLOR : bool.

Lemma render_table_indices raw_spaces raw_windows :
  (∀ s, s ∈ raw_spaces →
        Forall has_app (wins_at raw_windows (space_index s))) →
  render_table COLOR raw_spaces raw_windows
  = MkIO (table_lines COLOR raw_spaces raw_windows)
      (Ok (MkIndices (free_in_order raw_spaces raw_windows)
             (terminals_in_order raw_spaces raw_windows))).
Proof.
  intros Hall. rewrite render_table_ok by done. do 2 f_equal.
  apply Indices_eq; simpl.
  - by rewrite free_indices_foldl_visit.
  - by rewrite terminal_indices_foldl_visit.
Qed.

Lemma cli_ok raw_spaces yabai_windows tmux lines acc :
  render_table COLOR raw_spaces (default [] yabai_windows)
  = MkIO lines (Ok acc) →
  cli COLOR (Some raw_spaces) yabai_windows tmux
  = MkIO (lines ++ summary_line COLOR acc :: tmux_line COLOR tmux) (Ok tt).
Proof.
  intros E. unfold cli. rewrite !IO_bind_unfold, E. simpl.
  by destruct tmux.
Qed.

Lemma cli_ext raw_spaces ws1 ws2 tmux :
  render_table COLOR raw_spaces ws1 = render_table COLOR raw_spaces ws2 →
  cli COLOR (Some raw_spaces) (Some ws1) tmux
  = cli COLOR (Some raw_spaces) (Some ws2) tmux.
Proof. intros E. unfold cli. simpl. by rewrite E. Qed.

End Run.

(** ** Windows that are left out *)

Lemma kept_not_excluded w : kept w = true ↔ ¬ excluded w.
Proof.
  unfold kept, excluded.
  destruct (Z.leb_spec (default 0 (w_space w)) 0) as [Hle|Hgt].
  { split; [done|]. intros Hnot. destruct Hnot. by left. }
  destruct (w_is_hidden w) as [[]|]; simpl;
    [split; [done|]; intros Hnot; destruct Hnot; by right; left|..];
    (destruct (w_is_minimized w) as [[]|]; simpl;
      [split; [done|]; intros Hnot; destruct Hnot; by right; right|..]);
    (split; [|done]; intros _ [?|[?|?]]; [lia|done..]).
Qed.

Lemma index_window_excluded m w : excluded w → index_window m w = m.
Proof.
  intros Hex. rewrite index_window_kept.
  destruct (kept w) eqn:E; [|done].
  by apply kept_not_excluded in E.
Qed.

Lemma foldl_index_window_filter m raw_windows :
  foldl index_window m (filter (λ w, ¬ excluded w) raw_windows)
  = foldl index_window m raw_windows.
Proof.
  revert m. induction raw_windows as [|w ws IH]; intros m; [done|].
  destruct (decide (excluded w)) as [Hex|Hex].
  - rewrite filter_cons_False by tauto. simpl.
    by rewrite index_window_excluded.
  - rewrite filter_cons_True by done. simpl. apply IH.
Qed.

Lemma filter_all {A} (P : A → Prop) `{∀ x, Decision (P x)} (l : list A) :
  (∀ x, x ∈ l → P x) → filter P l = l.
Proof.
  induction l as [|x l IH]; intros HP; [done|].
  rewrite filter_cons_True by (apply HP; left).
  rewrite IH; [done|]. intros y Hy. apply HP. by right.
Qed.

Lemma filter_none {A} (P : A → Prop) `{∀ x, Decision (P x)} (l : list A) :
  (∀ x, x ∈ l → ¬ P x) → filter P l = [].
Proof.
  induction l as [|x l IH]; intros HP; [done|].
  rewrite filter_cons_False by (apply HP; left).
  apply IH. intros y Hy. apply HP. by right.
Qed.

(** ** Terminal entries and grouped entries *)

Lemma filter_idemp {A} (P : A → Prop) `{∀ x, Decision (P x)} (l : list A) :
  filter P (filter P l) = filter P l.
Proof. apply filter_all. by intros x [? _]%list_elem_of_filter. Qed.

Lemma other_apps_filter wins :
  other_apps (filter (λ w, ¬ terminal_app w) wins) = other_apps wins.
Proof. unfold other_apps. by rewrite filter_idemp. Qed.

Lemma app_count_filter wins a :
  a ∉ TERMINAL_APPS →
  app_count (filter (λ w, ¬ terminal_app w) wins) a = app_count wins a.
Proof.
  intros Hnt. unfold app_count. rewrite list_filter_filter. f_equal.
  apply list_filter_iff. intros w. split; [by intros [? _]|].
  intros Hw. split; [done|]. unfold terminal_app. rewrite Hw.
  by intros ?%bool_decide_unpack.
Qed.

(** ** The placeholder *)

Lemma mem_app c s1 s2 : Str.mem c (s1 +:+ s2) = Str.mem c s1 || Str.mem c s2.
Proof.
  induction s1 as [|d s1 IH]; [done|].
  rewrite str_app_cons. simpl. rewrite IH. by rewrite orb_assoc.
Qed.

(** Closes [Str.mem " " s = true] for a concatenation [s] one of whose
    literal pieces holds a blank. *)
Ltac find_blank := by rewrite !mem_app; simpl; rewrite !orb_true_r.

Section Placeholder.
Variable COLOR : bool.

Lemma marker_no_blank : Str.mem " " (marker COLOR) = false.
Proof. unfold marker. by destruct COLOR. Qed.

Lemma blank_ne_marker s : Str.mem " " s = true → s ≠ marker COLOR.
Proof. intros Hs ->. by rewrite marker_no_blank in Hs. Qed.

Lemma mem_ansi c code s :
  Str.mem c s = true → Str.mem c (_ansi COLOR code s) = true.
Proof.
  intros Hs. unfold _ansi. destruct COLOR; [|done].
  rewrite !mem_app, Hs. by rewrite !orb_true_r.
Qed.

Lemma terminal_entry_ne_marker w :
  terminal_app w → terminal_entry COLOR w ≠ marker COLOR.
Proof.
  unfold terminal_app, terminal_entry.
  destruct (w_app w) as [a|]; [|done]. simpl. intros Ha.
  destruct (Str.truthy _).
  - apply blank_ne_marker, mem_ansi. find_blank.
  - unfold marker, dim, green, _ansi. destruct COLOR.
    + intros E. cbv in E. congruence.
    + intros ->. by vm_compute in Ha.
Qed.

End Placeholder.

(** ** Missing fields *)

Lemma filter_fmap {A B} (f : A → B) (P : B → Prop) `{∀ y, Decision (P y)}
    (l : list A) :
  filter P (f <$> l) = f <$> filter (λ x, P (f x)) l.
Proof.
  induction l as [|x l IH]; [done|]. csimpl.
  destruct (decide (P (f x))) as [HP|HP].
  - rewrite !filter_cons_True by done. csimpl. by rewrite IH.
  - by rewrite !filter_cons_False by done.
Qed.












(** ** Counting *)





Lemma length_filter_disjoint {A} (P Q : A → Prop)
    `{∀ x, Decision (P x)} `{∀ x, Decision (Q x)} (l : list A) :
  (∀ x, P x → ¬ Q x) →
  (length (filter P l) + length (filter Q l) ≤ length l)%nat.
Proof.
  intros Hdis. induction l as [|x l IH]; [done|].
  destruct (decide (P x)) as [HP|HP].
  - rewrite (filter_cons_True P) by done.
    rewrite (filter_cons_False Q) by (by apply Hdis). simpl. lia.
  - rewrite (filter_cons_False P) by done.
    destruct (decide (Q x)).
    + rewrite (filter_cons_True Q) by done. simpl. lia.
    + rewrite (filter_cons_False Q) by done. simpl. lia.
Qed.

(** ** The dictionaries hold no empty list *)

Lemma append_at_nonempty `{Countable K} {A} (k : K) (x : A)
    (d : gmap K (list A)) :
  map_Forall (λ _ l, l ≠ []) d → map_Forall (λ _ l, l ≠ []) (append_at k x d).
Proof.
  intros Hd i l. rewrite lookup_append_at. case_decide.
  - intros [= <-]. by destruct (default [] (d !! k)).
  - apply Hd.
Qed.

Lemma index_windows_nonempty raw_windows :
  map_Forall (λ _ wins, wins ≠ []) (index_windows raw_windows).
Proof.
  unfold index_windows.
  assert (∀ m, map_Forall (λ (_ : Z) (l : list Window), l ≠ []) m →
               map_Forall (λ _ l, l ≠ []) (foldl index_window m raw_windows))
    as Hgen; [|apply Hgen, map_Forall_empty].
  induction raw_windows as [|w ws IH]; intros m Hm; [done|]. simpl.
  apply IH. rewrite index_window_kept.
  destruct (kept w); [by apply append_at_nonempty|done].
Qed.

Lemma group_spaces_nonempty raw_spaces :
  map_Forall (λ _ spaces, spaces ≠ []) (group_spaces raw_spaces).
Proof.
  unfold group_spaces.
  assert (∀ m, map_Forall (λ (_ : Z) (l : list Space), l ≠ []) m →
               map_Forall (λ _ l, l ≠ []) (foldl group_space m raw_spaces))
    as Hgen; [|apply Hgen, map_Forall_empty].
  induction raw_spaces as [|s ss IH]; intros m Hm; [done|]. simpl.
  apply IH. by apply append_at_nonempty.
Qed.

Lemma kept_positive w : kept w = true → 0 < window_space w.
Proof.
  unfold kept, window_space.
  destruct (Z.leb_spec (default 0 (w_space w)) 0); [done|lia].
Qed.

(** ** A loop that raises *)

Lemma first_failure {A} (P : A → Prop) `{∀ x, Decision (P x)} (l : list A) :
  ¬ Forall P l →
  ∃ good x rest, l = good ++ x :: rest ∧ Forall P good ∧ ¬ P x.
Proof.
  induction l as [|y l IH]; intros Hnot; [by destruct Hnot|].
  destruct (decide (P y)) as [Hy|Hy].
  - destruct IH as (good & x & rest & -> & Hgood & Hx).
    { intros Hl. apply Hnot. by constructor. }
    exists (y :: good), x, rest. split; [done|]. split; [by constructor|done].
  - exists [], y, l. split; [done|]. split; [constructor|done].
Qed.

(** A loop stops at the first element whose body raises, having printed
    what the elements before it printed and what that body printed. *)
Lemma for_each_raise {A S} (good : list A) (x : A) (rest : list A)
    (body : S → A → IO S) (out : A → list string) (upd : S → A → S)
    (pre : list string) (e : exception) (s : S) :
  (∀ y s', y ∈ good → body s' y = MkIO (out y) (Ok (upd s' y))) →
  (∀ s', body s' x = MkIO pre (Raise e)) →
  for_each (good ++ x :: rest) body s
  = MkIO ((good ≫= out) ++ pre) (Raise e).
Proof.
  revert s. induction good as [|y good IH]; intros s Hgood Hx; simpl.
  - by rewrite IO_bind_unfold, Hx.
  - rewrite IO_bind_unfold, (Hgood y s) by left. simpl.
    rewrite IH; [|intros z s' Hz; apply Hgood; by right|done].
    simpl. by rewrite <- app_assoc.
Qed.

Section Raise.
Variable COLOR : bool.

(** The space's kept windows all carry an app. *)
Let sound (raw_windows : list Window) (s : Space) : Prop :=
  Forall has_app (wins_at raw_windows (space_index s)).

Lemma render_display_ok raw_spaces raw_windows acc d :
  Forall (sound raw_windows) (display_spaces raw_spaces d) →
  render_display COLOR (index_windows raw_windows) (group_spaces raw_spaces)
    acc d
  = MkIO
      (display_header COLOR d (length (display_spaces raw_spaces d))
       :: ((λ s, space_line COLOR s
                   (window_summary COLOR
                      (wins_at raw_windows (space_index s))))
           <$> display_spaces raw_spaces d)
       ++ [""])
      (Ok (foldl (visit (wins_at raw_windows)) acc
             (display_spaces raw_spaces d))).
Proof.
  intros Hall. rewrite render_display_unfold.
  fold (display_spaces raw_spaces d). cbv zeta.
  rewrite (for_each_pure _ _
             (λ s, [space_line COLOR s
                      (window_summary COLOR
                         (wins_at raw_windows (space_index s)))])
             (visit (wins_at raw_windows))).
  - simpl. by rewrite bind_singleton_fmap.
  - intros s acc' Hs. rewrite Forall_forall in Hall.
    rewrite render_space_ok; rewrite !lookup_index_windows;
      [|by apply Hall].
    f_equal. f_equal. unfold visit. by rewrite !lookup_index_windows.
Qed.

Lemma render_display_raise raw_spaces raw_windows acc d good s rest :
  display_spaces raw_spaces d = good ++ s :: rest →
  Forall (sound raw_windows) good → ¬ sound raw_windows s →
  render_display COLOR (index_windows raw_windows)
    (group_spaces raw_spaces) acc d
  = MkIO
      (display_header COLOR d (length (display_spaces raw_spaces d))
       :: ((λ s, space_line COLOR s
                   (window_summary COLOR
                      (wins_at raw_windows (space_index s))))
           <$> good))
      (Raise (KeyError "app")).
Proof.
  intros Hsplit Hgood Hs. rewrite render_display_unfold.
  fold (display_spaces raw_spaces d). cbv zeta. rewrite Hsplit.
  rewrite (for_each_raise good s rest _
             (λ s, [space_line COLOR s
                      (window_summary COLOR
                         (wins_at raw_windows (space_index s)))])
             (visit (wins_at raw_windows)) [] (KeyError "app")).
  - simpl. by rewrite bind_singleton_fmap, !app_nil_r.
  - intros y acc' Hy. rewrite Forall_forall in Hgood.
    rewrite render_space_ok; rewrite !lookup_index_windows;
      [|by apply Hgood].
    f_equal. f_equal. unfold visit. by rewrite !lookup_index_windows.
  - intros acc'. apply render_space_raise.
    by rewrite lookup_index_windows.
Qed.

(** When a kept window of a listed space lacks its app, the table loop
    raises [KeyError] having printed a proper initial part of the table. *)
Lemma render_table_raise raw_spaces raw_windows :
  ¬ Forall (sound raw_windows) raw_spaces →
  ∃ lines rest,
    rest ≠ []
    ∧ table_lines COLOR raw_spaces raw_windows = lines ++ rest
    ∧ render_table COLOR raw_spaces raw_windows
      = MkIO lines (Raise (KeyError "app")).
Proof.
  intros Hnot.
  assert (¬ Forall (λ d, Forall (sound raw_windows)
                           (display_spaces raw_spaces d))
            (display_order raw_spaces)) as Hnotd.
  { intros Hall. apply Hnot, Forall_forall. intros s Hs.
    rewrite Forall_forall in Hall.
    assert (space_display s ∈ display_order raw_spaces) as Hd
      by (apply elem_of_display_order; eauto).
    specialize (Hall _ Hd). rewrite Forall_forall in Hall.
    apply Hall. by apply elem_of_display_spaces. }
  destruct (first_failure _ _ Hnotd)
    as (gd & d & rd & Hsplit & Hgd & Hd).
  destruct (first_failure _ _ Hd)
    as (good & s & rest & Hspaces & Hgood & Hs).
  set (line := λ s, space_line COLOR s
                      (window_summary COLOR
                         (wins_at raw_windows (space_index s)))).
  set (block := λ d,
         display_header COLOR d (length (display_spaces raw_spaces d))
         :: (line <$> display_spaces raw_spaces d) ++ [""]).
  exists ((gd ≫= block)
          ++ display_header COLOR d (length (display_spaces raw_spaces d))
             :: (line <$> good)),
    ((line <$> s :: rest) ++ [""] ++ (rd ≫= block)).
  split; [done|]. split.
  - unfold table_lines. fold line. fold block.
    rewrite Hsplit, bind_app, bind_cons. unfold block at 2.
    rewrite Hspaces, fmap_app. simpl.
    by rewrite <- !app_assoc.
  - unfold render_table.
    change (sorted Z.leb id (elements (dom (group_spaces raw_spaces))))
      with (display_order raw_spaces).
    rewrite Hsplit.
    apply (for_each_raise gd d rd _ block
             (λ acc d, foldl (visit (wins_at raw_windows)) acc
                         (display_spaces raw_spaces d))).
    + intros d' acc Hd'. rewrite Forall_forall in Hgd.
      by apply render_display_ok, Hgd.
    + intros acc. by apply (render_display_raise _ _ _ _ good s rest).
Qed.

Lemma cli_raise raw_spaces yabai_windows tmux lines e :
  render_table COLOR raw_spaces (default [] yabai_windows)
  = MkIO lines (Raise e) →
  cli COLOR (Some raw_spaces) yabai_windows tmux = MkIO lines (Raise e).
Proof. intros E. unfold cli. by rewrite !IO_bind_unfold, E. Qed.
End Raise.

(** ** Counts of the grouped entries *)



(** ** Stripping and splitting *)

Lemma isbreak_isspace c : Text.isbreak c = true → Str.isspace c = true.
Proof.
  destruct c as [[] [] [] [] [] [] [] []]; vm_compute; congruence.
Qed.

Lemma lstrip_blank s : blank s = true → Str.lstrip s = "".
Proof.
  induction s as [|c s IH]; [done|]. simpl.
  intros [Hc Hs]%andb_true_iff. rewrite Hc. by apply IH.
Qed.

Lemma lstrip_tight s : tight (Str.lstrip s) = true.
Proof.
  induction s as [|c s IH]; [done|]. simpl.
  destruct (Str.isspace c) eqn:Hc; [done|]. simpl. by rewrite Hc.
Qed.

Lemma lstrip_of_tight s : tight s = true → Str.lstrip s = s.
Proof.
  destruct s as [|c s]; [done|]. simpl. intros Hc.
  by destruct (Str.isspace c).
Qed.

Lemma blank_lstrip s : blank (Str.lstrip s) = blank s.
Proof.
  induction s as [|c s IH]; [done|]. simpl.
  destruct (Str.isspace c) eqn:Hc; [done|]. simpl. by rewrite Hc.
Qed.

Lemma rstrip_blank s : blank s = true → Str.rstrip s = "".
Proof.
  induction s as [|c s IH]; [done|]. simpl.
  intros [Hc Hs]%andb_true_iff. by rewrite IH, Hc.
Qed.

Lemma rstrip_not_blank s : blank s = false → Str.rstrip s ≠ "".
Proof.
  induction s as [|c s IH]; [done|]. simpl. intros Hb.
  destruct (blank s) eqn:Hs.
  - rewrite rstrip_blank by done.
    rewrite andb_true_r in Hb. by rewrite Hb.
  - specialize (IH eq_refl). by destruct (Str.rstrip s).
Qed.

Lemma rstrip_cons c s :
  Str.rstrip s ≠ "" → Str.rstrip (String c s) = String c (Str.rstrip s).
Proof. simpl. by destruct (Str.rstrip s). Qed.

Lemma rstrip_tight s : tight s = true → tight (Str.rstrip s) = true.
Proof.
  destruct s as [|c s]; [done|]. simpl. intros Hc.
  destruct (Str.rstrip s); [|done].
  destruct (Str.isspace c) eqn:E; simpl in *; [done|by rewrite E].
Qed.

Lemma rstrip_idemp s : Str.rstrip (Str.rstrip s) = Str.rstrip s.
Proof.
  induction s as [|c s IH]; [done|]. simpl.
  destruct (Str.rstrip s) as [|d r] eqn:E.
  - destruct (Str.isspace c) eqn:Hc; [done|]. simpl. by rewrite Hc.
  - rewrite rstrip_cons; by rewrite IH.
Qed.

Lemma strip_empty_iff s : Str.strip s = "" ↔ blank s = true.
Proof.
  unfold Str.strip. split.
  - intros E. destruct (blank s) eqn:Hb; [done|].
    rewrite <- blank_lstrip in Hb. by apply rstrip_not_blank in Hb.
  - intros Hb. by rewrite lstrip_blank.
Qed.

Lemma strip_idemp s : Str.strip (Str.strip s) = Str.strip s.
Proof.
  unfold Str.strip.
  rewrite (lstrip_of_tight (Str.rstrip _))
    by apply rstrip_tight, lstrip_tight.
  apply rstrip_idemp.
Qed.

Lemma strip_tight s : tight (Str.strip s) = true.
Proof. apply rstrip_tight, lstrip_tight. Qed.

(** A string that stripping leaves alone is left alone on both sides. *)
Lemma strip_fixed s :
  Str.strip s = s → Str.lstrip s = s ∧ Str.rstrip s = s.
Proof.
  intros E. split.
  - apply lstrip_of_tight. rewrite <- E. apply strip_tight.
  - rewrite <- E at 1. unfold Str.strip. rewrite rstrip_idemp. exact E.
Qed.

Lemma unbroken_lstrip s : unbroken s = true → unbroken (Str.lstrip s) = true.
Proof.
  induction s as [|c s IH]; [done|]. simpl.
  intros [Hc Hs]%andb_true_iff.
  destruct (Str.isspace c); [by apply IH|]. simpl. by rewrite Hc, Hs.
Qed.

Lemma unbroken_rstrip s : unbroken s = true → unbroken (Str.rstrip s) = true.
Proof.
  induction s as [|c s IH]; [done|]. simpl.
  intros [Hc Hs]%andb_true_iff. specialize (IH Hs).
  destruct (Str.rstrip s) as [|d r].
  - destruct (Str.isspace c); [done|]. simpl. by rewrite Hc.
  - change (negb (Text.isbreak c) && unbroken (String d r) = true).
    by rewrite Hc, IH.
Qed.

Lemma unbroken_strip s : unbroken s = true → unbroken (Str.strip s) = true.
Proof. intros Hs. by apply unbroken_rstrip, unbroken_lstrip. Qed.

Lemma splitlines_unbroken s : Forall (λ l, unbroken l = true) (Text.splitlines s).
Proof.
  assert (∀ n s, (String.length s ≤ n)%nat →
                 Forall (λ l, unbroken l = true) (Text.splitlines s))
    as Hgen; [|by apply (Hgen (String.length s))].
  clear s. induction n as [|n IH]; intros [|c s] Hlen; simpl in *;
    try (constructor || lia).
  destruct (Text.isbreak c) eqn:Hc.
  - destruct s as [|d s']; [by repeat constructor|].
    destruct (Ascii.eqb c Text.CR && Ascii.eqb d Text.LF);
      (constructor; [done|]); apply IH; simpl in *; lia.
  - pose proof (IH s ltac:(lia)) as Hs.
    destruct (Text.splitlines s) as [|l ls].
    + repeat constructor. simpl. by rewrite Hc.
    + apply Forall_cons in Hs as [Hl Hls].
      constructor; [|done]. simpl. by rewrite Hc, Hl.
Qed.

(** A text that begins with a character that is not whitespace has a
    first line that begins with it. *)
Lemma splitlines_head c s :
  Str.isspace c = false →
  ∃ line lines, Text.splitlines (String c s) = String c line :: lines.
Proof.
  intros Hc. simpl.
  destruct (Text.isbreak c) eqn:Hb.
  { apply isbreak_isspace in Hb. congruence. }
  destruct (Text.splitlines s); eauto.
Qed.

Lemma strip_head_not_space c s :
  Str.isspace c = false → Str.strip (String c s) ≠ "".
Proof.
  intros Hc E. apply strip_empty_iff in E. simpl in E. by rewrite Hc in E.
Qed.

Lemma rstrip_app_tight s1 s2 :
  Str.rstrip s2 ≠ "" → Str.rstrip (s1 +:+ s2) = s1 +:+ Str.rstrip s2.
Proof.
  intros Hne. induction s1 as [|c s1 IH]; [done|].
  rewrite !str_app_cons, rstrip_cons; rewrite IH; [done|].
  by destruct s1.
Qed.

Lemma rstrip_app_blank s1 s2 :
  blank s2 = true → Str.rstrip (s1 +:+ s2) = Str.rstrip s1.
Proof.
  intros Hb. induction s1 as [|c s1 IH]; [by apply rstrip_blank|].
  rewrite str_app_cons. simpl. by rewrite IH.
Qed.

Lemma join_cons sep p q rest :
  Str.join sep (p :: q :: rest) = p +:+ sep +:+ Str.join sep (q :: rest).
Proof. done. Qed.

Lemma join_nonempty sep p rest : p ≠ "" → Str.join sep (p :: rest) ≠ "".
Proof.
  intros Hp. destruct rest; [done|]. rewrite join_cons. by destruct p.
Qed.

(** Stripping a text of well-formed lines removes the last line feed and
    nothing else. *)
Lemma rstrip_unlines l lines :
  Forall (λ l, l ≠ "" ∧ Str.rstrip l = l) (l :: lines) →
  Str.rstrip (unlines (l :: lines))
  = Str.join (String Text.LF "") (l :: lines).
Proof.
  revert l. induction lines as [|l' lines IH]; intros l Hall.
  - apply Forall_inv in Hall as [_ Hl]. simpl.
    by rewrite rstrip_app_blank.
  - apply Forall_cons in Hall as [[Hne Hl] Hall].
    change (unlines (l :: l' :: lines))
      with (l +:+ String Text.LF (unlines (l' :: lines))).
    assert (Str.rstrip (unlines (l' :: lines)) ≠ "") as Hrest.
    { rewrite IH by done. apply join_nonempty.
      by apply Forall_inv in Hall as [? _]. }
    rewrite rstrip_app_tight; rewrite rstrip_cons by done; [|done].
    by rewrite IH, join_cons.
Qed.

Lemma splitlines_line l rest :
  unbroken l = true →
  Text.splitlines (l +:+ String Text.LF rest) = l :: Text.splitlines rest.
Proof.
  induction l as [|c l IH]; intros Hl.
  - change ("" +:+ String Text.LF rest) with (String Text.LF rest). simpl. by destruct rest.
  - simpl in Hl. apply andb_true_iff in Hl as [Hc Hl].
    rewrite str_app_cons. simpl.
    apply negb_true_iff in Hc. rewrite Hc. by rewrite IH.
Qed.

Lemma splitlines_single l :
  unbroken l = true → l ≠ "" → Text.splitlines l = [l].
Proof.
  induction l as [|c l IH]; intros Hl Hne; [done|].
  simpl in Hl. apply andb_true_iff in Hl as [Hc Hl].
  simpl. apply negb_true_iff in Hc. rewrite Hc.
  destruct l as [|d l']; [done|]. by rewrite IH.
Qed.

Lemma splitlines_join l lines :
  Forall (λ l, l ≠ "" ∧ unbroken l = true) (l :: lines) →
  Text.splitlines (Str.join (String Text.LF "") (l :: lines)) = l :: lines.
Proof.
  revert l. induction lines as [|l' lines IH]; intros l Hall.
  - apply Forall_inv in Hall as [Hne Hl]. by apply splitlines_single.
  - apply Forall_cons in Hall as [[Hne Hl] Hall].
    rewrite join_cons.
    change (l +:+ String Text.LF "" +:+ ?r) with (l +:+ String Text.LF r).
    by rewrite splitlines_line, IH.
Qed.

Lemma tight_slice_to n s : tight s = true → tight (Str.slice_to n s) = true.
Proof. by destruct n, s. Qed.

Lemma tight_app s1 s2 : s1 ≠ "" → tight (s1 +:+ s2) = tight s1.
Proof. by destruct s1. Qed.

(** ** The run as a sequence of events *)

Lemma Proc_bind_unfold {A B} (m : Proc A) (f : A → Proc B) :
  m ≫= f =
  match ending m with
  | Ok a => MkProc (events m ++ events (f a)) (ending (f a))
  | Raise e => MkProc (events m) (Raise e)
  end.
Proof. done. Qed.

Lemma prints_Print lines : prints (Print <$> lines) = lines.
Proof. induction lines as [|l lines IH]; [done|]. csimpl. by rewrite IH. Qed.

Lemma execs_Print lines : execs (Print <$> lines) = [].
Proof. induction lines as [|l lines IH]; [done|]. by csimpl. Qed.

Lemma prints_app evs1 evs2 : prints (evs1 ++ evs2) = prints evs1 ++ prints evs2.
Proof. apply omap_app. Qed.

Lemma execs_app evs1 evs2 : execs (evs1 ++ evs2) = execs evs1 ++ execs evs2.
Proof. apply omap_app. Qed.

Section MainFacts.
Variable loads_spaces : string → option (list Space).
Variable loads_windows : string → option (list Window).
Variable world : World.

Let COLOR : bool := _use_color world.
Let spaces_reply : option (list Space) :=
  yabai_reply loads_spaces (commands world (YABAI "spaces")).
Let windows_reply : option (list Window) :=
  yabai_reply loads_windows (commands world (YABAI "windows")).
Let sessions : list string := tmux_reply (commands world TMUX).

Lemma main_spaces_failed :
  spaces_reply = None →
  main loads_spaces loads_windows world
  = MkProc [Exec (YABAI "spaces");
            Print "error: couldn't query yabai (is it running?)"]
      (Raise (SystemExit 1)).
Proof.
  intros E. unfold main, query_yabai.
  rewrite !Proc_bind_unfold. simpl.
  fold spaces_reply. by rewrite E.
Qed.

Lemma main_table_raised raw_spaces lines e :
  spaces_reply = Some raw_spaces →
  render_table COLOR raw_spaces (default [] windows_reply)
  = MkIO lines (Raise e) →
  main loads_spaces loads_windows world
  = MkProc ([Exec (YABAI "spaces"); Exec (YABAI "windows")]
            ++ (Print <$> lines))
      (Raise e).
Proof.
  intros E Htab. unfold main, query_yabai.
  rewrite !Proc_bind_unfold. simpl.
  fold spaces_reply. rewrite E. simpl.
  rewrite !Proc_bind_unfold. simpl.
  fold windows_reply. fold COLOR. by rewrite Htab.
Qed.

Lemma main_table_printed raw_spaces lines acc :
  spaces_reply = Some raw_spaces →
  render_table COLOR raw_spaces (default [] windows_reply)
  = MkIO lines (Ok acc) →
  main loads_spaces loads_windows world
  = MkProc ([Exec (YABAI "spaces"); Exec (YABAI "windows")]
            ++ (Print <$> lines ++ [summary_line COLOR acc])
            ++ [Exec TMUX]
            ++ (Print <$> tmux_line COLOR sessions))
      (Ok tt).
Proof.
  intros E Htab. unfold main, query_yabai, get_tmux_sessions.
  rewrite !Proc_bind_unfold. simpl.
  fold spaces_reply. rewrite E. simpl.
  rewrite !Proc_bind_unfold. simpl.
  fold windows_reply. fold COLOR. rewrite Htab. simpl.
  fold sessions. rewrite fmap_app. simpl.
  rewrite <- !app_assoc. simpl.
  by destruct sessions.
Qed.
End MainFacts.

(** ** Erasing the escape sequences *)

Lemma str_app_assoc s1 s2 s3 : (s1 +:+ s2) +:+ s3 = s1 +:+ (s2 +:+ s3).
Proof.
  induction s1 as [|c s1 IH]; [done|]. by rewrite !str_app_cons, IH.
Qed.

Lemma str_app_nil_r s : s +:+ "" = s.
Proof. induction s as [|c s IH]; [done|]. by rewrite str_app_cons, IH. Qed.

Lemma plain_app s1 s2 : plain s1 → plain s2 → plain (s1 +:+ s2).
Proof. unfold plain. intros H1 H2. by rewrite mem_app, H1, H2. Qed.

Lemma plain_cons_inv c s :
  plain (String c s) → Ascii.eqb c "027" = false ∧ plain s.
Proof.
  unfold plain. simpl. intros [Hc Hs]%orb_false_iff. split; [|done].
  apply bool_decide_eq_false in Hc. apply Ascii.eqb_neq. congruence.
Qed.

Lemma decorates_plain s : plain s → decorates s s.
Proof.
  intros Hs rest. induction s as [|c s IH]; [done|].
  apply plain_cons_inv in Hs as [Hc Hs].
  rewrite !str_app_cons. unfold erase in *. simpl. by rewrite Hc, IH.
Qed.

Lemma decorates_app e1 e1' e2 e2' :
  decorates e1 e1' → decorates e2 e2' → decorates (e1 +:+ e2) (e1' +:+ e2').
Proof. intros H1 H2 rest. by rewrite !str_app_assoc, H1, H2. Qed.

Lemma decorates_erase e e' : decorates e e' → erase e = e'.
Proof. intros H. specialize (H ""). by rewrite !str_app_nil_r in H. Qed.

Lemma erase_inside code rest :
  Str.mem "m" code = false →
  erase_from true (code +:+ String "m" rest) = erase rest.
Proof.
  induction code as [|c code IH]; [done|]. simpl.
  intros [Hc Hcode]%orb_false_iff.
  apply bool_decide_eq_false in Hc.
  assert (Ascii.eqb c "m" = false) as ->
    by (apply Ascii.eqb_neq; congruence).
  by apply IH.
Qed.

Lemma decorates_ansi c code text text' :
  Str.mem "m" code = false →
  decorates text text' → decorates (_ansi c code text) text'.
Proof.
  intros Hcode Htext. unfold _ansi. destruct c; [|done]. intros rest.
  rewrite !str_app_assoc.
  change (erase (ESC +:+ "[" +:+ ?r)) with (erase_from true ("[" +:+ r)).
  rewrite <- (str_app_assoc "[" code).
  change ("m" +:+ ?r) with (String "m"%char r).
  rewrite erase_inside by (by rewrite mem_app, Hcode).
  rewrite Htext. by f_equal.
Qed.

Lemma decorates_join sep parts parts' :
  plain sep → Forall2 decorates parts parts' →
  decorates (Str.join sep parts) (Str.join sep parts').
Proof.
  intros Hsep. induction 1 as [|e e' l l' He Hl IH].
  { by apply decorates_plain. }
  destruct Hl as [|e2 e2' l2 l2' He2 Hl2]; [done|].
  rewrite !join_cons.
  apply decorates_app; [done|].
  apply decorates_app; [by apply decorates_plain|done].
Qed.

Lemma plain_pretty_N_go x s : plain s → plain (pretty_N_go x s).
Proof.
  revert s. induction (N.lt_wf_0 x) as [x _ IH]. intros s Hs.
  destruct (decide (0 < x)%N) as [Hx|Hx].
  - rewrite pretty_N_go_step by done.
    apply IH; [by apply N.div_lt|].
    unfold plain in *. simpl. rewrite Hs, orb_false_r.
    apply bool_decide_eq_false. unfold pretty_N_char.
    by repeat case_match.
  - assert (x = 0%N) as -> by lia. by rewrite pretty_N_go_0.
Qed.

Lemma plain_pretty_N (x : N) : plain (pretty x).
Proof.
  unfold pretty, pretty_N. case_decide; [done|].
  by apply plain_pretty_N_go.
Qed.

Lemma plain_pretty_nat (n : nat) : plain (pretty n).
Proof. apply plain_pretty_N. Qed.

Lemma plain_pretty_Z (z : Z) : plain (pretty z).
Proof.
  destruct z as [|p|p]; [done|apply plain_pretty_N|].
  change (pretty (Z.neg p)) with ("-" +:+ pretty (N.pos p)).
  apply plain_app; [done|apply plain_pretty_N].
Qed.

Lemma plain_fmt_2d z : plain (Str.fmt_2d z).
Proof.
  unfold Str.fmt_2d. case_match; [|apply plain_pretty_Z].
  apply plain_app; [done|apply plain_pretty_Z].
Qed.

Lemma plain_lstrip s : plain s → plain (Str.lstrip s).
Proof.
  induction s as [|c s IH]; [done|]. simpl. intros Hs.
  destruct (Str.isspace c); [|done].
  apply IH. by apply plain_cons_inv in Hs as [_ ?].
Qed.

Lemma plain_rstrip s : plain s → plain (Str.rstrip s).
Proof.
  induction s as [|c s IH]; [done|]. unfold plain in *. simpl.
  intros [Hc Hs]%orb_false_iff. specialize (IH Hs).
  destruct (Str.rstrip s) as [|d r].
  - destruct (Str.isspace c); [done|]. simpl. by rewrite Hc.
  - change (Str.mem "027" (String c (String d r)))
      with (bool_decide ("027"%char = c) || Str.mem "027" (String d r)).
    by rewrite Hc, IH.
Qed.

Lemma plain_strip s : plain s → plain (Str.strip s).
Proof. intros Hs. by apply plain_rstrip, plain_lstrip. Qed.

Lemma plain_slice_to n s : plain s → plain (Str.slice_to n s).
Proof.
  revert s. induction n as [|n IH]; intros [|c s]; try done.
  unfold plain in *. simpl. intros [Hc Hs]%orb_false_iff.
  by rewrite Hc, IH.
Qed.

Lemma plain_join sep parts :
  plain sep → Forall plain parts → plain (Str.join sep parts).
Proof.
  intros Hsep. induction 1 as [|p l Hp Hl IH]; [done|].
  destruct l as [|q l]; [done|]. rewrite join_cons.
  by repeat apply plain_app.
Qed.

(** Closes [plain s] for a concatenation of literals, numbers and strings
    known to be plain. *)
Ltac solve_plain :=
  repeat first
    [ assumption
    | apply plain_app
    | apply plain_pretty_Z | apply plain_pretty_nat | apply plain_fmt_2d
    | apply plain_strip | apply plain_slice_to
    | reflexivity ].

Section Decoration.
Variable COLOR : bool.

Lemma decorates_dim t t' : decorates t t' → decorates (dim COLOR t) t'.
Proof. by apply decorates_ansi. Qed.

Lemma decorates_green t t' : decorates t t' → decorates (green COLOR t) t'.
Proof. by apply decorates_ansi. Qed.

Lemma decorates_cyan t t' : decorates t t' → decorates (cyan COLOR t) t'.
Proof. by apply decorates_ansi. Qed.

Lemma decorates_yellow t t' : decorates t t' → decorates (yellow COLOR t) t'.
Proof. by apply decorates_ansi. Qed.

Lemma decorates_terminal_entry w :
  plain (default "" (w_app w)) → plain (default "" (w_title w)) →
  decorates (terminal_entry COLOR w) (terminal_entry false w).
Proof.
  intros Happ Htitle. unfold terminal_entry.
  repeat case_match; apply decorates_green, decorates_plain; solve_plain.
Qed.

Lemma plain_other_entry n a : plain a → plain (other_entry n a).
Proof. intros Ha. unfold other_entry. case_match; solve_plain. Qed.

Lemma decorates_window_summary wins :
  Forall has_app wins →
  Forall (λ w, plain (default "" (w_app w))
               ∧ plain (default "" (w_title w))) wins →
  decorates (window_summary COLOR wins) (window_summary false wins).
Proof.
  intros Happ Hplain. destruct wins as [|w0 wins0].
  { by apply decorates_dim, decorates_plain. }
  change (decorates (Str.join "  " (summary_parts COLOR (w0 :: wins0)))
            (Str.join "  " (summary_parts false (w0 :: wins0)))).
  revert Happ Hplain. generalize (w0 :: wins0). intros wins Happ Hplain.
  apply decorates_join; [done|]. unfold summary_parts.
  apply Forall2_app.
  - apply Forall2_fmap, Forall_Forall2_diag, Forall_forall.
    intros w [_ Hw]%list_elem_of_filter.
    rewrite Forall_forall in Hplain. destruct (Hplain w Hw).
    by apply decorates_terminal_entry.
  - apply Forall_Forall2_diag, Forall_fmap, Forall_forall.
    intros a Ha. simpl. apply decorates_plain, plain_other_entry.
    apply elem_of_other_apps in Ha as [_ (w & Hw & Ha)]; [|done].
    rewrite Forall_forall in Hplain. destruct (Hplain w Hw) as [Hpa _].
    by rewrite Ha in Hpa.
Qed.

Lemma decorates_space_line s text text' :
  plain (default "" (s_label s)) → decorates text text' →
  decorates (space_line COLOR s text) (space_line false s text').
Proof.
  intros Hlabel Htext. unfold space_line. cbv zeta.
  apply decorates_app; [by apply decorates_plain|].
  apply decorates_app; [apply decorates_plain, plain_fmt_2d|].
  apply decorates_app; [by apply decorates_plain|].
  apply decorates_app.
  { apply decorates_plain.
    by destruct (default false (s_has_focus s)),
         (default false (s_is_visible s)). }
  apply decorates_app; [by apply decorates_plain|].
  apply decorates_app; [|done].
  destruct (Str.truthy (default "" (s_label s)));
    [|by apply decorates_plain].
  apply decorates_dim, decorates_plain. solve_plain.
Qed.

Lemma decorates_display_header d n :
  decorates (display_header COLOR d n) (display_header false d n).
Proof.
  unfold display_header. apply decorates_app.
  - apply decorates_cyan, decorates_plain. solve_plain.
  - apply decorates_dim, decorates_plain. solve_plain.
Qed.

Lemma plain_index_list (l : list Z) : plain (Str.join ", " (pretty <$> l)).
Proof.
  apply plain_join; [done|]. apply Forall_fmap, Forall_forall.
  intros z _. apply plain_pretty_Z.
Qed.

Lemma decorates_summary_line acc :
  decorates (summary_line COLOR acc) (summary_line false acc).
Proof.
  pose proof (plain_index_list (free_indices acc)) as Hfree.
  pose proof (plain_index_list (terminal_indices acc)) as Hterm.
  unfold summary_line.
  destruct (free_indices acc) as [|i fs] eqn:Ef,
    (terminal_indices acc) as [|j ts] eqn:Et;
    cbn [app Str.join];
    repeat first
      [ apply decorates_app
      | apply decorates_green | apply decorates_dim | apply decorates_yellow
      | apply decorates_plain; solve_plain ].
Qed.

Lemma erase_tmux_line tmux :
  Forall plain tmux →
  erase <$> tmux_line COLOR tmux = tmux_line false tmux.
Proof.
  intros Hall. destruct tmux as [|t rest]; [done|].
  cbn [tmux_line fmap list_fmap]. f_equal.
  apply decorates_erase, decorates_dim, decorates_plain.
  apply plain_app; [done|]. by apply plain_join.
Qed.
End Decoration.

Lemma uncolored_for_each {A S} (xs : list A) (f g : S → A → IO S) (s : S) :
  (∀ x s', x ∈ xs → uncolored (f s' x) = g s' x) →
  uncolored (for_each xs f s) = for_each xs g s.
Proof.
  revert s. induction xs as [|x xs IH]; intros s Hfg; [done|]. simpl.
  rewrite !IO_bind_unfold, <- (Hfg x s) by left.
  unfold uncolored at 2 3 4. simpl.
  destruct (outcome (f s x)) as [s'|e]; [|done].
  rewrite <- IH by (intros y s'' Hy; apply Hfg; by right).
  unfold uncolored. simpl. by rewrite fmap_app.
Qed.

Section Uncolored.
Variable COLOR : bool.

(** The windows hold no ESC in their app or title. *)
Let plain_windows (wins : list Window) : Prop :=
  Forall (λ w, plain (default "" (w_app w))
               ∧ plain (default "" (w_title w))) wins.

Lemma uncolored_render_space raw_windows acc s :
  plain (default "" (s_label s)) → plain_windows raw_windows →
  uncolored (render_space COLOR (index_windows raw_windows) acc s)
  = render_space false (index_windows raw_windows) acc s.
Proof.
  intros Hlabel Hwins.
  destruct (decide (Forall has_app (wins_at raw_windows (space_index s))))
    as [Happ|Happ].
  - rewrite !render_space_ok by (by rewrite lookup_index_windows).
    unfold uncolored. simpl. do 2 f_equal.
    apply decorates_erase, decorates_space_line; [done|].
    rewrite lookup_index_windows.
    apply decorates_window_summary; [done|].
    by apply Forall_filter_keep.
  - by rewrite !render_space_raise by (by rewrite lookup_index_windows).
Qed.

Lemma uncolored_render_display raw_spaces raw_windows acc d :
  Forall (λ s, plain (default "" (s_label s))) raw_spaces →
  plain_windows raw_windows →
  uncolored (render_display COLOR (index_windows raw_windows)
               (group_spaces raw_spaces) acc d)
  = render_display false (index_windows raw_windows)
      (group_spaces raw_spaces) acc d.
Proof.
  intros Hlabels Hwins. rewrite !render_display_unfold. cbv zeta.
  fold (display_spaces raw_spaces d).
  assert (uncolored (for_each (display_spaces raw_spaces d)
                       (render_space COLOR (index_windows raw_windows)) acc)
          = for_each (display_spaces raw_spaces d)
              (render_space false (index_windows raw_windows)) acc)
    as Hloop.
  { apply uncolored_for_each.
    intros s acc' [Hs _]%elem_of_display_spaces.
    apply uncolored_render_space; [|done].
    rewrite Forall_forall in Hlabels. by apply Hlabels. }
  rewrite <- Hloop. unfold uncolored. simpl. f_equal. f_equal.
  - apply decorates_erase, decorates_display_header.
  - rewrite fmap_app. f_equal.
    by destruct (outcome (for_each _ (render_space COLOR _) acc)).
Qed.

Lemma uncolored_render_table raw_spaces raw_windows :
  Forall (λ s, plain (default "" (s_label s))) raw_spaces →
  plain_windows raw_windows →
  uncolored (render_table COLOR raw_spaces raw_windows)
  = render_table false raw_spaces raw_windows.
Proof.
  intros Hlabels Hwins. unfold render_table.
  apply uncolored_for_each. intros d acc _.
  by apply uncolored_render_display.
Qed.

Lemma uncolored_cli yabai_spaces yabai_windows tmux :
  plain_inputs yabai_spaces yabai_windows tmux →
  uncolored (cli COLOR yabai_spaces yabai_windows tmux)
  = cli false yabai_spaces yabai_windows tmux.
Proof.
  intros (Hlabels & Hwins & Htmux).
  destruct yabai_spaces as [raw_spaces|]; [|done]. simpl in Hlabels.
  pose proof (uncolored_render_table raw_spaces (default [] yabai_windows)
                Hlabels Hwins) as Htab.
  destruct (render_table COLOR raw_spaces (default [] yabai_windows))
    as [lines [acc|e]] eqn:E.
  - rewrite (cli_ok COLOR _ _ _ _ _ E).
    unfold uncolored in Htab. simpl in Htab. symmetry in Htab.
    rewrite (cli_ok false _ _ _ _ _ Htab).
    unfold uncolored. simpl. f_equal.
    rewrite fmap_app. f_equal. csimpl. f_equal.
    + apply decorates_erase, decorates_summary_line.
    + by apply erase_tmux_line.
  - rewrite (cli_raise COLOR _ _ _ _ _ E).
    unfold uncolored in Htab. simpl in Htab. symmetry in Htab.
    by rewrite (cli_raise false _ _ _ _ _ Htab).
Qed.
End Uncolored.

Lemma main_refines_cli loads_spaces loads_windows world :
  MkIO (prints (events (main loads_spaces loads_windows world)))
    (ending (main loads_spaces loads_windows world))
  = cli (_use_color world)
      (yabai_reply loads_spaces (commands world (YABAI "spaces")))
      (yabai_reply loads_windows (commands world (YABAI "windows")))
      (tmux_reply (commands world TMUX)).
Proof.
  destruct (yabai_reply loads_spaces (commands world (YABAI "spaces")))
    as [raw_spaces|] eqn:E.
  - destruct (render_table (_use_color world) raw_spaces
                (default [] (yabai_reply loads_windows
                               (commands world (YABAI "windows")))))
      as [lines [acc|e]] eqn:Htab.
    + rewrite (main_table_printed _ _ _ _ _ _ E Htab).
      rewrite (cli_ok _ _ _ _ _ _ Htab). simpl.
      rewrite !prints_app, !prints_Print. simpl.
      by rewrite prints_Print, <- app_assoc.
    + rewrite (main_table_raised _ _ _ _ _ _ E Htab).
      rewrite (cli_raise _ _ _ _ _ _ Htab). simpl.
      by rewrite prints_Print.
  - by rewrite (main_spaces_failed _ _ _ E).
Qed.

(** ** Order of the input *)

Lemma sorted_Permutation_eq {A} (key : A → Z) (l1 l2 : list A) :
  (∀ x y, x ∈ l1 → y ∈ l1 → key x = key y → x = y) →
  l1 ≡ₚ l2 → sorted Z.leb key l1 = sorted Z.leb key l2.
Proof.
  intros Hinj E.
  apply (StronglySorted_unique_strong
           (λ x y, Z.leb (key x) (key y) = true)).
  - intros x y Hx Hy Hxy Hyx. apply Hinj.
    + by apply elem_of_sorted in Hx.
    + apply elem_of_sorted in Hy. by rewrite E.
    + lia.
  - apply (sorted_StronglySorted Z.leb key Zleb_total Zleb_trans).
  - apply (sorted_StronglySorted Z.leb key Zleb_total Zleb_trans).
  - by rewrite !sorted_Permutation.
Qed.

Lemma NoDup_fmap_inj_on {A B} (f : A → B) (l : list A) x y :
  NoDup (f <$> l) → x ∈ l → y ∈ l → f x = f y → x = y.
Proof.
  induction l as [|a l IH]; csimpl; intros Hnd Hx Hy E.
  { by apply elem_of_nil in Hx. }
  apply NoDup_cons in Hnd as [Ha Hnd].
  apply elem_of_cons in Hx as [->|Hx]; apply elem_of_cons in Hy as [->|Hy].
  - done.
  - destruct Ha. rewrite E. by apply list_elem_of_fmap_2.
  - destruct Ha. rewrite <- E. by apply list_elem_of_fmap_2.
  - by apply IH.
Qed.

Lemma display_order_Permutation rs rs' :
  rs ≡ₚ rs' → display_order rs = display_order rs'.
Proof.
  intros E. unfold display_order.
  assert (dom (group_spaces rs) = dom (group_spaces rs')) as ->; [|done].
  apply set_eq. intros d. rewrite !elem_of_dom_group_spaces.
  split; intros (s & Hs & Hd); exists s; split; try done.
  - by rewrite <- E.
  - by rewrite E.
Qed.

Lemma display_spaces_Permutation rs rs' d :
  NoDup (space_place <$> rs) → rs ≡ₚ rs' →
  display_spaces rs d = display_spaces rs' d.
Proof.
  intros Hnd E. unfold display_spaces. rewrite !lookup_group_spaces.
  apply sorted_Permutation_eq.
  - intros x y [Hdx Hx]%list_elem_of_filter [Hdy Hy]%list_elem_of_filter Hk.
    apply (NoDup_fmap_inj_on space_place rs x y Hnd Hx Hy).
    unfold space_place. congruence.
  - by rewrite E.
Qed.

Lemma render_table_Permutation color rs rs' ws :
  NoDup (space_place <$> rs) → rs ≡ₚ rs' →
  render_table color rs ws = render_table color rs' ws.
Proof.
  intros Hnd E. unfold render_table.
  fold (display_order rs) (display_order rs').
  rewrite <- (display_order_Permutation rs rs' E).
  apply for_each_ext_IO. intros d acc _.
  rewrite !render_display_unfold.
  fold (display_spaces rs d) (display_spaces rs' d).
  by rewrite (display_spaces_Permutation rs rs' d Hnd E).
Qed.

Lemma terminal_entry_view color w w' :
  terminal_view w = terminal_view w' →
  terminal_entry color w = terminal_entry color w'.
Proof.
  unfold terminal_view, terminal_entry. intros E.
  by injection E as -> ->.
Qed.

Lemma fmap_view_ext {A B C} (f : A → B) (g : A → C) (l l' : list A) :
  (∀ x y, f x = f y → g x = g y) →
  f <$> l = f <$> l' → g <$> l = g <$> l'.
Proof.
  intros Hfg. revert l'.
  induction l as [|x l IH]; intros [|y l'] E; csimpl in *; try done.
  injection E as Exy E. f_equal; [by apply Hfg|by apply IH].
Qed.

Lemma app_count_others wins a :
  a ∉ TERMINAL_APPS →
  app_count wins a
  = length (filter (λ o, o = Some a)
              (w_app <$> filter (λ w, ¬ terminal_app w) wins)).
Proof.
  intros Ha. rewrite <- (app_count_filter wins a Ha). unfold app_count.
  by rewrite filter_fmap, length_fmap.
Qed.

Lemma windows_split_length wins :
  length wins
  = (length (filter (λ w, terminal_app w) wins)
     + length (filter (λ w, ¬ terminal_app w) wins))%nat.
Proof.
  rewrite <- length_app.
  by rewrite (filter_app_complement (λ w, terminal_app w) wins).
Qed.

(** ** The output, written out *)

Lemma ansi_rendition color code text :
  _ansi color code text = rendition color code text.
Proof. by destruct color. Qed.

Lemma marker_placeholder color : marker color = placeholder_text color.
Proof. by destruct color. Qed.

Lemma display_header_text color d n :
  display_header color d n = header_text color d n.
Proof. by destruct color. Qed.

Lemma space_line_text color s win_text :
  space_line color s win_text = line_text color s win_text.
Proof.
  unfold space_line, line_text, focus_mark, label_text, space_index.
  destruct (s_has_focus s) as [[]|], (s_is_visible s) as [[]|],
    (s_label s) as [[|c label]|]; simpl; by destruct color.
Qed.

Lemma summary_line_text color free terminal :
  summary_line color (MkIndices free terminal)
  = summary_text color free terminal.
Proof.
  unfold summary_line, summary_text, green, yellow, dim. simpl.
  rewrite !ansi_rendition.
  destruct free, terminal; simpl; by rewrite ?str_app_nil_r.
Qed.

Lemma other_entry_marker_inv color n a :
  other_entry n a = marker color → (n ≤ 1)%nat ∧ a = marker color.
Proof.
  unfold other_entry. destruct (Nat.ltb_spec 1 n) as [Hn|Hn].
  - intros E. exfalso. revert E. apply blank_ne_marker. find_blank.
  - intros ->. split; [lia|done].
Qed.

(** The only occupied space that reads as the placeholder holds one
    window, of an app named as the placeholder. *)
Lemma window_summary_marker_inv color wins :
  Forall has_app wins → wins ≠ [] →
  window_summary color wins = marker color →
  ∃ w, wins = [w] ∧ w_app w = Some (marker color).
Proof.
  intros Happ Hne E.
  assert (window_summary color wins
          = Str.join "  " (summary_parts color wins)) as E'
    by (by destruct wins).
  rewrite E' in E. clear E'.
  pose proof (summary_parts_nonempty color wins Happ Hne) as Hparts.
  destruct (summary_parts color wins) as [|p [|q rest]] eqn:Eparts;
    [done| |].
  2:{ exfalso. revert E. apply blank_ne_marker. rewrite join_cons.
      find_blank. }
  simpl in E. subst p. unfold summary_parts in Eparts.
  destruct (filter (λ w, terminal_app w) wins) as [|t ts] eqn:Et.
  2:{ csimpl in Eparts. injection Eparts as Ht _. exfalso. revert Ht.
      apply terminal_entry_ne_marker.
      assert (t ∈ filter (λ w, terminal_app w) wins) as Hin
        by (rewrite Et; left).
      by apply list_elem_of_filter in Hin as [? _]. }
  csimpl in Eparts.
  destruct (other_apps wins) as [|a [|b l]] eqn:Ea; csimpl in Eparts;
    try done.
  injection Eparts as Ha. apply other_entry_marker_inv in Ha as [Hn ->].
  assert (∀ w, w ∈ wins → w_app w = Some (marker color)) as Hall.
  { intros w Hw.
    destruct (proj1 (Forall_forall _ _) Happ w Hw) as [b Hb].
    assert (b ∈ other_apps wins) as Hb'.
    { apply elem_of_other_apps; [done|]. split; [|by exists w].
      intros Hterm.
      assert (w ∈ filter (λ w, terminal_app w) wins) as Hin.
      { apply list_elem_of_filter. split; [|done].
        unfold terminal_app. rewrite Hb. by apply bool_decide_pack. }
      rewrite Et in Hin. by apply elem_of_nil in Hin. }
    rewrite Ea in Hb'. apply list_elem_of_singleton in Hb'. by subst. }
  unfold app_count in Hn. rewrite filter_all in Hn by done.
  destruct wins as [|w [|w' ws]]; [done| |simpl in Hn; lia].
  exists w. split; [done|]. apply Hall. left.
Qed.

Lemma single_marker_window color w :
  w_app w = Some (marker color) →
  format_windows_for_space color [w] = Ok (marker color).
Proof.
  destruct w as [app title space hidden minimized]. simpl. intros ->.
  by destruct color; vm_compute.
Qed.

(** * Main results *)

(** C1. A window with [space <= 0] (or no [space]), hidden or minimized is
    left out of the aggregation: no list of [windows_by_space] holds one,
    and dropping all of them from the input changes neither the dictionary,
    nor the index lists the table loop returns, nor anything [cli] prints
    or how it ends. *)
Theorem excluded_windows_are_ignored
    (color : bool) (raw_spaces : list Space) (raw_windows : list Window)
    (tmux : list string) :
  let visible := filter (λ w, ¬ excluded w) raw_windows in
  map_Forall (λ _ wins, Forall (λ w, ¬ excluded w) wins)
    (index_windows raw_windows)
  ∧ index_windows visible = index_windows raw_windows
  ∧ render_table color raw_spaces visible
    = render_table color raw_spaces raw_windows
  ∧ cli color (Some raw_spaces) (Some visible) tmux
    = cli color (Some raw_spaces) (Some raw_windows) tmux.
Proof.
  intros visible.
  assert (index_windows visible = index_windows raw_windows) as Hidx
    by apply foldl_index_window_filter.
  assert (render_table color raw_spaces visible
          = render_table color raw_spaces raw_windows) as Htab.
  { unfold render_table. by rewrite Hidx. }
  split; [|split; [done|split; [done|by apply cli_ext]]].
  intros i wins Hi. eapply Forall_impl;
    [exact (index_windows_Forall_kept raw_windows i wins Hi)|].
  intros w. apply kept_not_excluded.
Qed.

(** A space holding one window of an app named [--] renders, without
    color, the very text of the placeholder, although its window list is
    not empty. *)
Lemma placeholder_for_occupied_space :
  ¬ (format_windows_for_space false [dash_window] = Ok (dim false "--")
     ↔ [dash_window] = []).
Proof. intros [H _]. by discriminate H. Qed.

(** C2, amended.  A space renders as the placeholder if and only if its
    window list is empty or holds exactly one window, of an app whose name
    is the text of the placeholder itself; and, for every space, the loop
    body completes with the space's index appended to the free list if
    and only if its window list is empty. *)
Theorem free_placeholder_iff_empty
    (color : bool) (windows_by_space : gmap Z (list Window))
    (acc : Indices) (space : Space) :
  let idx := space_index space in
  let wins := default [] (windows_by_space !! idx) in
  (format_windows_for_space color wins = Ok (placeholder_text color)
   ↔ wins = []
     ∨ ∃ w, wins = [w] ∧ w_app w = Some (placeholder_text color))
  ∧ ((∃ line acc',
        render_space color windows_by_space acc space
        = MkIO [line] (Ok acc')
        ∧ free_indices acc' = free_indices acc ++ [idx])
     ↔ wins = []).
Proof.
  intros idx wins. rewrite <- marker_placeholder. split; split.
  - intros Hfmt. destruct (decide (wins = [])) as [|Hne]; [by left|].
    right. destruct (decide (Forall has_app wins)) as [Happ|Happ].
    + rewrite format_windows_for_space_ok in Hfmt by done.
      injection Hfmt as Hfmt.
      by apply window_summary_marker_inv.
    + by rewrite format_windows_for_space_raise in Hfmt.
  - intros [->|(w & -> & Hw)]; [done|].
    by apply single_marker_window.
  - intros (line & acc' & Hrun & Hfree).
    destruct (decide (Forall has_app wins)) as [Happ|Happ].
    + rewrite render_space_ok in Hrun by done.
      injection Hrun as _ <-. unfold visit in Hfree. simpl in Hfree.
      fold idx wins in Hfree. destruct wins; [done|].
      apply (f_equal length) in Hfree. rewrite length_app in Hfree.
      simpl in Hfree. lia.
    + by rewrite render_space_raise in Hrun.
  - intros Hnil. eexists _, _. rewrite render_space_ok.
    + split; [done|]. unfold visit. simpl. fold idx wins.
      by rewrite Hnil.
    + fold idx wins. rewrite Hnil. constructor.
Qed.

(** C3. Terminal windows are neither grouped nor deduplicated.  For a
    space whose windows all carry an app, the entries are one entry per
    terminal window, in source order (two windows with the same app and the
    same title give two entries), followed by exactly the entries the other
    windows alone would give; the rendered summary is these entries joined
    by two blanks. *)
Theorem terminals_listed_individually (color : bool) (wins : list Window) :
  Forall has_app wins →
  ∃ others : list string,
    format_parts color (filter (λ w, ¬ terminal_app w) wins) = Ok others
    ∧ format_parts color wins
      = Ok ((terminal_entry color <$> filter (λ w, terminal_app w) wins)
            ++ others)
    ∧ (wins ≠ [] →
       format_windows_for_space color wins
       = Ok (Str.join "  "
               ((terminal_entry color <$> filter (λ w, terminal_app w) wins)
                ++ others))).
Proof.
  intros Hall.
  exists ((λ a, other_entry (app_count wins a) a) <$> other_apps wins).
  split; [|split].
  - rewrite format_parts_ok by (by apply Forall_filter_keep).
    rewrite (filter_none (λ w, Is_true (terminal_app w))); simpl.
    + rewrite other_apps_filter. f_equal.
      apply Forall_fmap_ext, Forall_forall. intros a Ha.
      apply elem_of_other_apps in Ha as [Hnt _]; [|done].
      by rewrite app_count_filter.
    + by intros w [? _]%list_elem_of_filter.
  - by apply format_parts_ok.
  - intros Hne. rewrite format_windows_for_space_ok by done.
    by destruct wins.
Qed.

Lemma terminals_listed_individually_witness :
  ∃ others : list string,
    format_parts false (filter (λ w, ¬ terminal_app w) two_kitties)
    = Ok others
    ∧ format_parts false two_kitties
      = Ok ((terminal_entry false
               <$> filter (λ w, terminal_app w) two_kitties) ++ others)
    ∧ (two_kitties ≠ [] →
       format_windows_for_space false two_kitties
       = Ok (Str.join "  "
               ((terminal_entry false
                   <$> filter (λ w, terminal_app w) two_kitties)
                ++ others))).
Proof.
  apply (terminals_listed_individually false two_kitties).
  repeat constructor; by eexists.
Defined.

Example two_identical_terminals :
  format_windows_for_space false two_kitties
  = Ok "kitty: dev  kitty: dev  Finder".
Proof. by vm_compute. Qed.

(** C4. Non-terminal windows sharing an app are merged.  For a space whose
    windows all carry an app, the entries after the terminal entries are
    one per distinct non-terminal app, the apps in ascending string order
    without repetition, each rendered [app (n)] with [n] the number of
    windows of that app, or just [app] when there is one. *)
Theorem others_grouped_and_sorted (color : bool) (wins : list Window) :
  Forall has_app wins →
  ∃ apps : list string,
    StronglySorted String.le apps
    ∧ NoDup apps
    ∧ (∀ a, a ∈ apps
            ↔ (a ∉ TERMINAL_APPS) ∧ ∃ w, w ∈ wins ∧ w_app w = Some a)
    ∧ let entries :=
        (terminal_entry color <$> filter (λ w, terminal_app w) wins)
        ++ ((λ a, let n := app_count wins a in
                  if (1 <? n)%nat
                  then a +:+ " (" +:+ pretty n +:+ ")" else a)
            <$> apps) in
      format_parts color wins = Ok entries
      ∧ (wins ≠ [] →
         format_windows_for_space color wins
         = Ok (Str.join "  " entries)).
Proof.
  intros Hall. exists (other_apps wins).
  split; [apply other_apps_sorted|].
  split; [apply other_apps_NoDup|].
  split; [intros a; by apply elem_of_other_apps|].
  split; [by apply format_parts_ok|].
  intros Hne. rewrite format_windows_for_space_ok by done.
  by destruct wins.
Qed.

Lemma others_grouped_and_sorted_witness :
  ∃ apps : list string,
    StronglySorted String.le apps
    ∧ NoDup apps
    ∧ (∀ a, a ∈ apps
            ↔ (a ∉ TERMINAL_APPS)
              ∧ ∃ w, w ∈ mixed_windows ∧ w_app w = Some a)
    ∧ let entries :=
        (terminal_entry true <$> filter (λ w, terminal_app w) mixed_windows)
        ++ ((λ a, let n := app_count mixed_windows a in
                  if (1 <? n)%nat
                  then a +:+ " (" +:+ pretty n +:+ ")" else a)
            <$> apps) in
      format_parts true mixed_windows = Ok entries
      ∧ (mixed_windows ≠ [] →
         format_windows_for_space true mixed_windows
         = Ok (Str.join "  " entries)).
Proof.
  apply (others_grouped_and_sorted true mixed_windows).
  repeat constructor; by eexists.
Defined.

Example grouped_entries :
  format_windows_for_space false mixed_windows
  = Ok "kitty: dev  Finder  Safari (2)".
Proof. by vm_compute. Qed.

(** C5. Title truncation.  For a window with an app whose stripped title
    [title] is not empty, the loop over the terminals appends
    [app: title] unchanged when [title] has at most 50 characters; when it
    has 51 or more, it appends [app: head...] where [head] is the first 47
    characters of [title], so that the rendered title has exactly 50
    characters. *)
Theorem terminal_title_truncation
    (color : bool) (parts : list string) (w : Window) (app title : string) :
  w_app w = Some app →
  Str.strip (default "" (w_title w)) = title →
  title ≠ "" →
  ((String.length title ≤ 50)%nat →
   terminal_part color parts w
   = Ok (parts ++ [green color (app +:+ ": " +:+ title)]))
  ∧ ((51 ≤ String.length title)%nat →
     ∃ head tail : string,
       title = head +:+ tail
       ∧ String.length head = 47%nat
       ∧ String.length (head +:+ "...") = 50%nat
       ∧ terminal_part color parts w
         = Ok (parts ++ [green color (app +:+ ": " +:+ head +:+ "...")])).
Proof.
  intros Happ Htitle Hne.
  unfold terminal_part, getitem_app. rewrite Happ, Htitle.
  rewrite truthy_ne_empty by done. split.
  - intros Hlen.
    by destruct (Nat.ltb_spec 50 (String.length title)) as [?|_]; [lia|].
  - intros Hlen. destruct (slice_to_prefix 47 title) as [tail Htail].
    exists (Str.slice_to 47 title), tail.
    assert (String.length (Str.slice_to 47 title) = 47%nat) as H47
      by (rewrite slice_to_length; lia).
    split; [done|]. split; [done|].
    split; [by rewrite str_length_app, H47|].
    by destruct (Nat.ltb_spec 50 (String.length title)) as [_|?]; [|lia].
Qed.

Lemma terminal_title_truncation_witness :
  ((String.length "0123456789012345678901234567890123456789012345678901234"
    ≤ 50)%nat →
   terminal_part false [] long_title_window
   = Ok ([] ++ [green false
                  ("kitty" +:+ ": " +:+
                   "0123456789012345678901234567890123456789012345678901234")]))
  ∧ ((51 ≤ String.length
             "0123456789012345678901234567890123456789012345678901234")%nat →
     ∃ head tail : string,
       "0123456789012345678901234567890123456789012345678901234"
       = head +:+ tail
       ∧ String.length head = 47%nat
       ∧ String.length (head +:+ "...") = 50%nat
       ∧ terminal_part false [] long_title_window
         = Ok ([] ++ [green false ("kitty" +:+ ": " +:+ head +:+ "...")])).
Proof.
  apply (terminal_title_truncation false [] long_title_window "kitty"
           "0123456789012345678901234567890123456789012345678901234");
    [reflexivity|by vm_compute|discriminate].
Defined.

(** A title of exactly 50 characters is kept, one of 51 is cut to 47 and
    the three dots. *)
Example title_of_50_kept :
  format_windows_for_space false
    [ MkWindow (Some "kitty")
        (Some "01234567890123456789012345678901234567890123456789")
        (Some 1) None None ]
  = Ok "kitty: 01234567890123456789012345678901234567890123456789".
Proof. by vm_compute. Qed.

Example title_of_51_cut :
  format_windows_for_space false
    [ MkWindow (Some "kitty")
        (Some "012345678901234567890123456789012345678901234567890")
        (Some 1) None None ]
  = Ok "kitty: 01234567890123456789012345678901234567890123456...".
Proof. by vm_compute. Qed.



(** Display 1 holds space 3 and display 2 holds spaces 1 and 2: the free
    list reads 3 before 1. *)
Example traversal_order_not_numeric :
  stdout (cli false (Some example_spaces) (Some example_windows) ["dev:3w"])
  = [ "display 1 (1 spaces)"; "   3 *  --"; "";
      "display 2 (2 spaces)";
      "   1 " +:+ MIDDLE_DOT +:+ "  [web] --";
      "   2    kitty: session-build  Finder"; "";
      "2 free (3, 1)  1 with terminals (2)";
      "tmux: dev:3w" ].
Proof. by vm_compute. Qed.

(** C7. When the space query returns [None], [cli] prints the one
    diagnostic line and nothing else, and ends through [sys.exit(1)]: the
    exit status is 1, whatever the other two queries would return. *)
Theorem spaces_unavailable_is_fatal
    (color : bool) (yabai_windows : option (list Window))
    (tmux : list string) :
  cli color None yabai_windows tmux
  = MkIO ["error: couldn't query yabai (is it running?)"]
      (Raise (SystemExit 1))
  ∧ exit_code (cli color None yabai_windows tmux) = 1
  ∧ length (stdout (cli color None yabai_windows tmux)) = 1%nat.
Proof. by unfold cli, exit_code. Qed.

(** C8. When the window query fails ([None], read as no windows: the same
    run as with an empty window list) and the space query succeeds, the run
    ends normally.  The line of every space ends with the placeholder; the
    table loop returns every space index in the free list, in the order
    the spaces are visited, and an empty terminal list; the summary line is
    the free count and these indices (or [0 free] when there is no space
    at all), with no terminals clause. *)
Theorem windows_unavailable_all_free
    (color : bool) (raw_spaces : list Space) (tmux : list string) :
  let order := visit_order raw_spaces in
  cli color (Some raw_spaces) None tmux
  = MkIO
      ((display_order raw_spaces ≫= λ d,
          header_text color d (length (display_spaces raw_spaces d))
          :: ((λ s, line_text color s (placeholder_text color))
              <$> display_spaces raw_spaces d)
          ++ [""])
       ++ [match raw_spaces with
           | [] => rendition color "33" "0 free"
           | _ =>
               rendition color "32"
                 (pretty (length raw_spaces) +:+ " free")
               +:+ rendition color "2"
                     (" (" +:+ Str.join ", " (pretty <$> (space_index <$> order))
                      +:+ ")")
           end]
       ++ tmux_line color tmux)
      (Ok tt)
  ∧ outcome (render_table color raw_spaces [])
    = Ok (MkIndices (space_index <$> order) [])
  ∧ cli color (Some raw_spaces) (Some []) tmux
    = cli color (Some raw_spaces) None tmux
  ∧ exit_code (cli color (Some raw_spaces) None tmux) = 0
  ∧ order ≡ₚ raw_spaces
  ∧ StronglySorted visit_le order.
Proof.
  intros order.
  pose proof (visit_order_Permutation raw_spaces) as Hperm.
  pose proof (visit_order_sorted raw_spaces) as Hsorted.
  assert (render_table color raw_spaces []
          = MkIO (table_lines color raw_spaces [])
              (Ok (MkIndices (space_index <$> order) []))) as Htab.
  { rewrite render_table_indices by (intros; constructor).
    do 3 f_equal.
    - unfold free_in_order. by rewrite filter_all.
    - unfold terminals_in_order. rewrite filter_none; [done|].
      intros s _ Hex. by apply Exists_nil in Hex. }
  pose proof (cli_ok color raw_spaces None tmux _ _ Htab) as Hcli.
  fold order in Hperm, Hsorted. clearbody order.
  split; [|split; [by rewrite Htab|
           split; [done|split; [by unfold exit_code; rewrite Hcli|done]]]].
  rewrite Hcli. f_equal. unfold table_lines. f_equal.
  - apply list_bind_ext; [|done]. intros d.
    rewrite display_header_text. f_equal. f_equal.
    apply list_fmap_ext. intros i s _. simpl.
    by rewrite space_line_text, <- marker_placeholder.
  - simpl. f_equal. rewrite summary_line_text. unfold summary_text.
    rewrite length_fmap, (Permutation_length Hperm), str_app_nil_r.
    destruct order as [|s1 order'], raw_spaces as [|s0 rest]; simpl;
      try done.
    by apply Permutation_nil_cons in Hperm.
Qed.

(** Scenario D: three spaces, the window query fails. *)
Example three_spaces_no_windows :
  cli false
    (Some [ MkSpace (Some 2) (Some 1) None None None;
            MkSpace (Some 1) (Some 1) (Some true) (Some true) None;
            MkSpace (Some 3) (Some 1) None None None ])
    None []
  = MkIO [ "display 1 (3 spaces)"; "   1 *  --"; "   2    --"; "   3    --";
           ""; "3 free (1, 2, 3)" ]
      (Ok tt).
Proof. by vm_compute. Qed.




(** Records without any optional field: display 1, index 0, no focus. *)
Example bare_records :
  stdout (cli false (Some bare_spaces) (Some bare_windows) [])
  = [ "display 1 (2 spaces)"; "   0    --";
      "   1 " +:+ MIDDLE_DOT +:+ "  kitty"; "";
      "1 free (0)  1 with terminals (1)" ].
Proof. by vm_compute. Qed.

(** C10. A kept window whose space is the index of no listed space never
    reaches the output: dropping all such windows from the input leaves
    what the table loop returns and everything [cli] prints, and how it
    ends, identical. *)
Theorem unjoined_windows_are_ignored
    (color : bool) (raw_spaces : list Space) (raw_windows : list Window)
    (tmux : list string) :
  let joined := filter (λ w, ¬ orphan raw_spaces w) raw_windows in
  render_table color raw_spaces joined
  = render_table color raw_spaces raw_windows
  ∧ cli color (Some raw_spaces) (Some joined) tmux
    = cli color (Some raw_spaces) (Some raw_windows) tmux.
Proof.
  intros joined.
  assert (render_table color raw_spaces joined
          = render_table color raw_spaces raw_windows) as Htab.
  { apply render_table_ext. intros s Hs. unfold joined, wins_at.
    rewrite list_filter_filter. apply list_filter_iff.
    intros w. split; [by intros [? _]|]. intros [Hk Hw]. split; [done|].
    intros [_ Hnot]. apply Hnot. rewrite Hw. by apply list_elem_of_fmap_2. }
  split; [done|by apply cli_ext].
Qed.

(** * Further results *)

(** X1. [windows_by_space] after the indexing loop: every key is a
    positive space index, no key holds an empty list, the list of a key is
    exactly the kept windows of that space in source order, and a key is
    missing exactly when the space has no kept window. *)
Theorem windows_by_space_invariant (raw_windows : list Window) :
  map_Forall
    (λ i wins,
       0 < i ∧ wins ≠ []
       ∧ wins = filter (λ w, kept w ∧ default 0 (w_space w) = i) raw_windows)
    (index_windows raw_windows)
  ∧ ∀ i, index_windows raw_windows !! i = None
         ↔ filter (λ w, kept w ∧ default 0 (w_space w) = i) raw_windows = [].
Proof.
  assert (∀ i wins, index_windows raw_windows !! i = Some wins →
                    wins ≠ [] ∧ wins = wins_at raw_windows i) as Hsome.
  { intros i wins Hi.
    split; [by apply (index_windows_nonempty raw_windows i)|].
    by rewrite <- lookup_index_windows, Hi. }
  split.
  - intros i wins Hi. destruct (Hsome i wins Hi) as [Hne Heq].
    split; [|done].
    destruct wins as [|w wins']; [done|].
    assert (w ∈ wins_at raw_windows i) as Hw by (rewrite <- Heq; left).
    apply list_elem_of_filter in Hw as [[Hk <-] _].
    by apply kept_positive, Is_true_true.
  - intros i. change (filter _ raw_windows) with (wins_at raw_windows i).
    rewrite <- lookup_index_windows. split; [by intros ->|].
    destruct (index_windows raw_windows !! i) as [wins|] eqn:Hi; [|done].
    simpl. intros ->. by destruct (Hsome i [] Hi).
Qed.

(** X3. When a kept window of a listed space lacks its app, the run stops
    with [KeyError] on [app]: what was printed is a proper initial part of
    the table, so neither the summary line nor the tmux line appears. *)
Theorem key_error_leaves_partial_table
    (color : bool) (raw_spaces : list Space)
    (yabai_windows : option (list Window)) (tmux : list string) (s : Space) :
  s ∈ raw_spaces →
  ¬ Forall has_app (wins_at (default [] yabai_windows) (space_index s)) →
  outcome (cli color (Some raw_spaces) yabai_windows tmux)
  = Raise (KeyError "app")
  ∧ ∃ rest,
      rest ≠ []
      ∧ table_lines color raw_spaces (default [] yabai_windows)
        = stdout (cli color (Some raw_spaces) yabai_windows tmux) ++ rest.
Proof.
  intros Hs Hbad.
  destruct (render_table_raise color raw_spaces (default [] yabai_windows))
    as (lines & rest & Hrest & Htable & Hraise).
  { intros Hall. rewrite Forall_forall in Hall. by apply Hbad, Hall. }
  rewrite (cli_raise color raw_spaces yabai_windows tmux _ _ Hraise).
  split; [done|]. by exists rest.
Qed.

Lemma key_error_leaves_partial_table_witness :
  outcome (cli false (Some two_spaces) (Some broken_windows) ["dev:1w"])
  = Raise (KeyError "app")
  ∧ ∃ rest,
      rest ≠ []
      ∧ table_lines false two_spaces (default [] (Some broken_windows))
        = stdout (cli false (Some two_spaces) (Some broken_windows)
                    ["dev:1w"]) ++ rest.
Proof.
  apply (key_error_leaves_partial_table false two_spaces
           (Some broken_windows) ["dev:1w"]
           (MkSpace (Some 2) (Some 1) None None None)).
  - by vm_compute; right; left.
  - vm_compute. intros H. inversion H as [|? ? [? Happ] _]. discriminate Happ.
Defined.

(** X4. No index is reported both as free and as holding a terminal: when
    no kept window of a listed space lacks its app, the two lists the
    table loop returns are disjoint, every index in them is the index of a
    listed space, and together they are no longer than the list of
    spaces. *)
Theorem free_and_terminal_lists_disjoint
    (color : bool) (raw_spaces : list Space) (raw_windows : list Window) :
  (∀ s, s ∈ raw_spaces →
        Forall has_app (wins_at raw_windows (space_index s))) →
  ∃ acc,
    outcome (render_table color raw_spaces raw_windows) = Ok acc
    ∧ (∀ i, i ∈ free_indices acc → i ∉ terminal_indices acc)
    ∧ (∀ i, i ∈ free_indices acc ∨ i ∈ terminal_indices acc →
            i ∈ space_index <$> raw_spaces)
    ∧ (length (free_indices acc) + length (terminal_indices acc)
       ≤ length raw_spaces)%nat.
Proof.
  intros Hall. eexists.
  rewrite render_table_indices by done. split; [done|]. simpl.
  unfold free_in_order, terminals_in_order. split; [|split].
  - intros i (s & -> & [Hfree _]%list_elem_of_filter)%list_elem_of_fmap
      (s' & Hi & [Hterm _]%list_elem_of_filter)%list_elem_of_fmap.
    rewrite <- Hi, Hfree in Hterm. by apply Exists_nil in Hterm.
  - intros i [(s & -> & [_ Hs]%list_elem_of_filter)%list_elem_of_fmap
             |(s & -> & [_ Hs]%list_elem_of_filter)%list_elem_of_fmap];
      apply list_elem_of_fmap_2; by rewrite <- visit_order_Permutation.
  - rewrite !length_fmap.
    rewrite <- (Permutation_length (visit_order_Permutation raw_spaces)).
    apply length_filter_disjoint.
    intros s Hfree Hterm. rewrite Hfree in Hterm.
    by apply Exists_nil in Hterm.
Qed.

Lemma free_and_terminal_lists_disjoint_witness :
  ∃ acc,
    outcome (render_table true example_spaces example_windows) = Ok acc
    ∧ (∀ i, i ∈ free_indices acc → i ∉ terminal_indices acc)
    ∧ (∀ i, i ∈ free_indices acc ∨ i ∈ terminal_indices acc →
            i ∈ space_index <$> example_spaces)
    ∧ (length (free_indices acc) + length (terminal_indices acc)
       ≤ length example_spaces)%nat.
Proof.
  apply (free_and_terminal_lists_disjoint true example_spaces
           example_windows).
  apply Forall_forall. vm_compute. repeat constructor; by eexists.
Defined.



(** X6. Every space gets one line of its own.  When no kept window of a
    listed space lacks its app, what [cli] prints is, block by block, the
    header of a display with the number of its spaces, one printed line
    per space of the block (its index, focus mark and label, then the
    summary [format_windows_for_space] returns for its windows) and an
    empty line; then the summary line and the tmux line, if any.  The
    blocks together hold every space once, each display has one block, no
    block is empty, and every space of a block is on its display. *)
Theorem every_space_has_one_line
    (color : bool) (raw_spaces : list Space) (raw_windows : list Window)
    (tmux : list string) :
  (∀ s, s ∈ raw_spaces →
        Forall has_app (wins_at raw_windows (space_index s))) →
  ∃ (blocks : list (Z * list Space)) (text_of : Space → string)
    (summary : string),
    stdout (cli color (Some raw_spaces) (Some raw_windows) tmux)
    = (blocks ≫= λ b,
         header_text color b.1 (length b.2)
         :: ((λ s, line_text color s (text_of s)) <$> b.2)
         ++ [""])
      ++ summary :: tmux_line color tmux
    ∧ (∀ s, s ∈ raw_spaces →
            format_windows_for_space color
              (wins_at raw_windows (space_index s))
            = Ok (text_of s))
    ∧ blocks ≫= snd ≡ₚ raw_spaces
    ∧ NoDup blocks.*1
    ∧ Forall (λ b, b.2 ≠ []
                   ∧ Forall (λ s, default 1 (s_display s) = b.1) b.2)
        blocks.
Proof.
  intros Hall.
  exists ((λ d, (d, display_spaces raw_spaces d))
          <$> display_order raw_spaces),
    (λ s, window_summary color (wins_at raw_windows (space_index s))),
    (summary_line color
       (MkIndices (free_in_order raw_spaces raw_windows)
          (terminals_in_order raw_spaces raw_windows))).
  split; [|split; [|split; [|split]]].
  - rewrite (cli_ok color raw_spaces (Some raw_windows) tmux _ _
               (render_table_indices color raw_spaces raw_windows Hall)).
    simpl. f_equal. unfold table_lines. rewrite list_fmap_bind.
    apply list_bind_ext; [|done]. intros d. simpl.
    rewrite display_header_text. f_equal. f_equal.
    apply list_fmap_ext. intros i s _. by rewrite space_line_text.
  - intros s Hs. by apply format_windows_for_space_ok, Hall.
  - rewrite list_fmap_bind. apply visit_order_Permutation.
  - assert (∀ ds : list Z,
              ((λ d, (d, display_spaces raw_spaces d)) <$> ds).*1 = ds)
      as ->; [|apply NoDup_display_order].
    induction ds as [|d ds IH]; [done|]. csimpl. by rewrite IH.
  - apply Forall_fmap, Forall_forall. intros d Hd. simpl. split.
    + apply elem_of_display_order in Hd as (s & Hs & Hds).
      assert (s ∈ display_spaces raw_spaces d) as Hin
        by (by apply elem_of_display_spaces).
      intros E. rewrite E in Hin. by apply elem_of_nil in Hin.
    + apply Forall_forall. intros s Hs.
      by apply elem_of_display_spaces in Hs as [_ ?].
Qed.

Lemma every_space_has_one_line_witness :
  ∃ (blocks : list (Z * list Space)) (text_of : Space → string)
    (summary : string),
    stdout (cli false (Some example_spaces) (Some example_windows)
              ["dev:3w"])
    = (blocks ≫= λ b,
         header_text false b.1 (length b.2)
         :: ((λ s, line_text false s (text_of s)) <$> b.2)
         ++ [""])
      ++ summary :: tmux_line false ["dev:3w"]
    ∧ (∀ s, s ∈ example_spaces →
            format_windows_for_space false
              (wins_at example_windows (space_index s))
            = Ok (text_of s))
    ∧ blocks ≫= snd ≡ₚ example_spaces
    ∧ NoDup blocks.*1
    ∧ Forall (λ b, b.2 ≠ []
                   ∧ Forall (λ s, default 1 (s_display s) = b.1) b.2)
        blocks.
Proof.
  apply (every_space_has_one_line false example_spaces example_windows
           ["dev:3w"]).
  apply Forall_forall. vm_compute. repeat constructor; by eexists.
Defined.

(** X7. Every session string [get_tmux_sessions] returns is a non-empty
    string without whitespace at either end (stripping it again changes
    nothing) and without a line break inside. *)
Theorem tmux_sessions_are_clean_lines (result : proc_result) :
  Forall (λ session,
            session ≠ ""
            ∧ Str.strip session = session
            ∧ unbroken session = true)
    (tmux_reply result).
Proof.
  destruct result as [returncode out| |]; simpl; [|constructor..].
  case_bool_decide; [constructor|].
  apply Forall_fmap, Forall_forall.
  intros line [Hline Hin]%list_elem_of_filter. simpl.
  split; [by destruct (Str.strip line)|].
  split; [apply strip_idemp|].
  apply unbroken_strip.
  pose proof (splitlines_unbroken (Str.strip out)) as Hall.
  rewrite Forall_forall in Hall. by apply Hall.
Qed.

(** X8. [get_tmux_sessions] returns the empty list exactly when tmux
    could not be run, timed out, returned a code other than 0, or printed
    nothing but whitespace. *)
Theorem tmux_sessions_empty_iff (result : proc_result) :
  tmux_reply result = []
  ↔ match result with
    | CompletedProcess returncode out => returncode ≠ 0 ∨ blank out = true
    | FileNotFoundError | TimeoutExpired => True
    end.
Proof.
  destruct result as [returncode out| |]; simpl; [|done..].
  case_bool_decide as Hrc; [split; [by left|done]|].
  split.
  - intros E. right. destruct (blank out) eqn:Hb; [done|].
    assert (Str.strip out ≠ "") as Hne
      by (intros ?%strip_empty_iff; congruence).
    pose proof (strip_tight out) as Ht.
    destruct (Str.strip out) as [|c t]; [done|]. simpl in Ht.
    apply negb_true_iff in Ht.
    destruct (splitlines_head c t Ht) as (line & lines & Hsplit).
    rewrite Hsplit in E.
    rewrite filter_cons_True in E; [done|].
    pose proof (strip_head_not_space c line Ht) as Hhead.
    by destruct (Str.strip (String c line)).
  - intros [?|Hb]; [done|].
    apply strip_empty_iff in Hb. by rewrite Hb.
Qed.

(** X9. Round trip.  When tmux returns 0 and prints lines that are each
    non-empty, free of whitespace at both ends and free of line breaks,
    each ended by a line feed, [get_tmux_sessions] returns exactly these
    lines, in order. *)
Theorem tmux_sessions_round_trip (lines : list string) :
  Forall (λ l, l ≠ "" ∧ Str.strip l = l ∧ unbroken l = true) lines →
  tmux_reply (CompletedProcess 0 (unlines lines)) = lines.
Proof.
  intros Hall. unfold tmux_reply. rewrite bool_decide_eq_false_2 by lia.
  destruct lines as [|l lines]; [done|].
  assert (Str.strip (unlines (l :: lines))
          = Str.join (String Text.LF "") (l :: lines)) as ->.
  { unfold Str.strip. rewrite lstrip_of_tight.
    - apply rstrip_unlines. eapply Forall_impl; [exact Hall|].
      intros l0 (Hne & Hfix & _). split; [done|].
      by apply strip_fixed.
    - apply Forall_inv in Hall as (Hne & Hfix & _).
      pose proof (strip_tight l) as Ht. rewrite Hfix in Ht.
      by destruct l. }
  rewrite splitlines_join
    by (eapply Forall_impl; [exact Hall|]; by intros l0 (? & _ & ?)).
  rewrite filter_all.
  - apply list_eq_Forall2, Forall2_fmap_l, Forall_Forall2_diag.
    eapply Forall_impl; [exact Hall|]. by intros l0 (_ & ? & _).
  - intros l0 Hl0. rewrite Forall_forall in Hall.
    destruct (Hall l0 Hl0) as (Hne & -> & _). by destruct l0.
Qed.

Lemma tmux_sessions_round_trip_witness :
  tmux_reply (CompletedProcess 0 (unlines ["my session:3w"; "build:2w"]))
  = ["my session:3w"; "build:2w"].
Proof.
  apply (tmux_sessions_round_trip ["my session:3w"; "build:2w"]).
  repeat constructor; by vm_compute.
Defined.

(** X10. The shape of a terminal entry.  For a window with an app, the
    loop over the terminals appends the app alone when the title is
    missing, empty or only whitespace; otherwise it appends [app: t] where
    [t] has between 1 and 50 characters and neither begins nor ends with
    whitespace. *)
Theorem terminal_entry_shape
    (color : bool) (parts : list string) (w : Window) (app : string) :
  w_app w = Some app →
  ∃ entry : string,
    terminal_part color parts w = Ok (parts ++ [green color entry])
    ∧ (blank (default "" (w_title w)) = true → entry = app)
    ∧ (blank (default "" (w_title w)) = false →
       ∃ t : string,
         entry = app +:+ ": " +:+ t
         ∧ (1 ≤ String.length t ≤ 50)%nat
         ∧ Str.lstrip t = t
         ∧ Str.rstrip t = t).
Proof.
  intros Happ. unfold terminal_part, getitem_app. rewrite Happ.
  set (title := Str.strip (default "" (w_title w))).
  assert (Str.strip title = title) as Hfix by apply strip_idemp.
  destruct (strip_fixed _ Hfix) as [Hl Hr].
  destruct (blank (default "" (w_title w))) eqn:Hb.
  - assert (title = "") as -> by (by apply strip_empty_iff).
    exists app. by repeat split.
  - assert (title ≠ "") as Hne
      by (intros ?%strip_empty_iff; congruence).
    rewrite truthy_ne_empty by done.
    destruct (Nat.ltb_spec 50 (String.length title)) as [Hlong|Hshort].
    + exists (app +:+ ": " +:+ Str.slice_to 47 title +:+ "...").
      split; [done|]. split; [done|]. intros _.
      exists (Str.slice_to 47 title +:+ "..."). split; [done|].
      assert (String.length (Str.slice_to 47 title) = 47%nat) as H47
        by (rewrite slice_to_length; lia).
      split; [rewrite str_length_app, H47; simpl; lia|].
      split.
      * apply lstrip_of_tight. rewrite tight_app.
        -- apply tight_slice_to. rewrite <- Hfix. apply strip_tight.
        -- intros E. by rewrite E in H47.
      * by rewrite rstrip_app_tight.
    + exists (app +:+ ": " +:+ title).
      split; [done|]. split; [done|]. intros _.
      exists title. split; [done|].
      split; [|done]. split; [|done].
      destruct title; [done|simpl; lia].
Qed.

Lemma terminal_entry_shape_witness :
  ∃ entry : string,
    terminal_part true [] spaced_title_window
    = Ok ([] ++ [green true entry])
    ∧ (blank (default "" (w_title spaced_title_window)) = true →
       entry = "kitty")
    ∧ (blank (default "" (w_title spaced_title_window)) = false →
       ∃ t : string,
         entry = "kitty" +:+ ": " +:+ t
         ∧ (1 ≤ String.length t ≤ 50)%nat
         ∧ Str.lstrip t = t
         ∧ Str.rstrip t = t).
Proof.
  apply (terminal_entry_shape true [] spaced_title_window "kitty").
  reflexivity.
Defined.

(** X12. No query is repeated and none runs out of turn.  The commands a
    run executes are an initial part of: the spaces query, the windows
    query, the tmux query.  The spaces query always runs; the windows
    query runs exactly when the spaces query gave a list; the tmux query
    runs exactly when the run ends normally. *)
Theorem queries_run_once_in_order
    (loads_spaces : string → option (list Space))
    (loads_windows : string → option (list Window)) (world : World) :
  let run := main loads_spaces loads_windows world in
  execs (events run) `prefix_of` [YABAI "spaces"; YABAI "windows"; TMUX]
  ∧ YABAI "spaces" ∈ execs (events run)
  ∧ (YABAI "windows" ∈ execs (events run)
     ↔ is_Some (yabai_reply loads_spaces (commands world (YABAI "spaces"))))
  ∧ (TMUX ∈ execs (events run) ↔ ending run = Ok tt).
Proof.
  intros run. unfold run.
  assert (YABAI "windows" ∉ [YABAI "spaces"]) as Hw
    by (apply (bool_decide_unpack _); by vm_compute).
  assert (TMUX ∉ [YABAI "spaces"]) as Ht1
    by (apply (bool_decide_unpack _); by vm_compute).
  assert (TMUX ∉ [YABAI "spaces"; YABAI "windows"]) as Ht2
    by (apply (bool_decide_unpack _); by vm_compute).
  destruct (yabai_reply loads_spaces (commands world (YABAI "spaces")))
    as [raw_spaces|] eqn:E.
  - destruct (render_table (_use_color world) raw_spaces
                (default [] (yabai_reply loads_windows
                               (commands world (YABAI "windows")))))
      as [lines [acc|e]] eqn:Htab.
    + rewrite (main_table_printed _ _ _ _ _ _ E Htab). cbn [events ending].
      assert (∀ l1 l2, execs ([Exec (YABAI "spaces");
                               Exec (YABAI "windows")]
                              ++ (Print <$> l1) ++ [Exec TMUX]
                              ++ (Print <$> l2))
                       = [YABAI "spaces"; YABAI "windows"; TMUX]) as ->.
      { intros l1 l2. rewrite !execs_app, !execs_Print. done. }
      split; [done|]. split; [by left|].
      split; (split; [eauto|intros _]); [by right; left|].
      by right; right; left.
    + rewrite (main_table_raised _ _ _ _ _ _ E Htab). cbn [events ending].
      assert (∀ l1, execs ([Exec (YABAI "spaces");
                            Exec (YABAI "windows")] ++ (Print <$> l1))
                    = [YABAI "spaces"; YABAI "windows"]) as ->.
      { intros l1. rewrite !execs_app, !execs_Print. done. }
      split; [by exists [TMUX]|]. split; [by left|].
      split; (split; [eauto|intros H]); [by right; left|done|done].
  - rewrite (main_spaces_failed _ _ _ E). cbn [events ending].
    change (execs [Exec (YABAI "spaces"); Print _])
      with [YABAI "spaces"].
    split; [by exists [YABAI "windows"; TMUX]|]. split; [by left|].
    split; (split; intros H); done.
Qed.

(** X13. When the spaces query fails in any way the program handles (the
    executable is missing, the timeout expires, the return code is not 0,
    or the output is not valid JSON), the run executes that one command,
    prints the one diagnostic line and exits with status 1. *)
Theorem failed_spaces_query_stops_the_run
    (loads_spaces : string → option (list Space))
    (loads_windows : string → option (list Window)) (world : World) :
  match commands world (YABAI "spaces") with
  | CompletedProcess returncode out =>
      returncode ≠ 0 ∨ loads_spaces out = None
  | FileNotFoundError | TimeoutExpired => True
  end →
  main loads_spaces loads_windows world
  = MkProc [Exec (YABAI "spaces");
            Print "error: couldn't query yabai (is it running?)"]
      (Raise (SystemExit 1)).
Proof.
  intros Hfail. apply main_spaces_failed. unfold yabai_reply.
  destruct (commands world (YABAI "spaces")) as [returncode out| |];
    [|done..].
  case_bool_decide; [done|]. by destruct Hfail.
Qed.

Lemma failed_spaces_query_stops_the_run_witness :
  main (λ _, Some example_spaces) (λ _, Some example_windows) failing_world
  = MkProc [Exec (YABAI "spaces");
            Print "error: couldn't query yabai (is it running?)"]
      (Raise (SystemExit 1)).
Proof.
  apply (failed_spaces_query_stops_the_run (λ _, Some example_spaces)
           (λ _, Some example_windows) failing_world).
  simpl. left. lia.
Defined.

(** X14. The order of a normal run.  When the spaces query gives a list
    and no kept window of a listed space lacks its app, the run executes
    the two yabai queries, prints the table and the summary line, only
    then executes the tmux query, and prints the tmux line, if any, last. *)
Theorem normal_run_in_order
    (loads_spaces : string → option (list Space))
    (loads_windows : string → option (list Window)) (world : World)
    (raw_spaces : list Space) :
  let color := _use_color world in
  let raw_windows :=
    default []
      (yabai_reply loads_windows (commands world (YABAI "windows"))) in
  yabai_reply loads_spaces (commands world (YABAI "spaces"))
  = Some raw_spaces →
  (∀ s, s ∈ raw_spaces →
        Forall has_app (wins_at raw_windows (space_index s))) →
  main loads_spaces loads_windows world
  = MkProc
      ([Exec (YABAI "spaces"); Exec (YABAI "windows")]
       ++ (Print <$>
             table_lines color raw_spaces raw_windows
             ++ [summary_line color
                   (MkIndices (free_in_order raw_spaces raw_windows)
                      (terminals_in_order raw_spaces raw_windows))])
       ++ [Exec TMUX]
       ++ (Print <$> tmux_line color (tmux_reply (commands world TMUX))))
      (Ok tt).
Proof.
  intros color raw_windows E Hall.
  apply (main_table_printed _ _ _ _ _ _ E).
  by apply render_table_indices.
Qed.

Lemma normal_run_in_order_witness :
  let color := _use_color sample_world in
  let raw_windows :=
    default []
      (yabai_reply (λ _, Some example_windows)
         (commands sample_world (YABAI "windows"))) in
  main (λ _, Some example_spaces) (λ _, Some example_windows) sample_world
  = MkProc
      ([Exec (YABAI "spaces"); Exec (YABAI "windows")]
       ++ (Print <$>
             table_lines color example_spaces raw_windows
             ++ [summary_line color
                   (MkIndices (free_in_order example_spaces raw_windows)
                      (terminals_in_order example_spaces raw_windows))])
       ++ [Exec TMUX]
       ++ (Print <$>
             tmux_line color (tmux_reply (commands sample_world TMUX))))
      (Ok tt).
Proof.
  apply (normal_run_in_order (λ _, Some example_spaces)
           (λ _, Some example_windows) sample_world example_spaces).
  - reflexivity.
  - apply Forall_forall. vm_compute. repeat constructor; by eexists.
Defined.

(** X15. Color is decoration only.  When the strings read from the
    queries hold no ESC character, removing the escape sequences from what
    [cli] prints, with or without color, gives exactly what it prints
    without color, and the run ends the same way. *)
Theorem color_is_decoration
    (color : bool) (yabai_spaces : option (list Space))
    (yabai_windows : option (list Window)) (tmux : list string) :
  plain_inputs yabai_spaces yabai_windows tmux →
  erase <$> stdout (cli color yabai_spaces yabai_windows tmux)
  = stdout (cli false yabai_spaces yabai_windows tmux)
  ∧ outcome (cli color yabai_spaces yabai_windows tmux)
    = outcome (cli false yabai_spaces yabai_windows tmux).
Proof.
  intros Hplain.
  pose proof (uncolored_cli color _ _ _ Hplain) as E.
  rewrite <- E. done.
Qed.

Lemma color_is_decoration_witness :
  erase <$> stdout (cli true (Some example_spaces) (Some example_windows)
                      ["dev:3w"])
  = stdout (cli false (Some example_spaces) (Some example_windows)
              ["dev:3w"])
  ∧ outcome (cli true (Some example_spaces) (Some example_windows)
               ["dev:3w"])
    = outcome (cli false (Some example_spaces) (Some example_windows)
                 ["dev:3w"]).
Proof.
  apply (color_is_decoration true (Some example_spaces)
           (Some example_windows) ["dev:3w"]).
  by repeat constructor.
Defined.

(** X16. [NO_COLOR] changes nothing but the escape sequences.  When the
    replies of the queries hold no ESC character, the run in the same
    world with [NO_COLOR] set prints what the run prints with its escape
    sequences removed, and ends the same way. *)
Theorem no_color_only_removes_escapes
    (loads_spaces : string → option (list Space))
    (loads_windows : string → option (list Window)) (world : World) :
  plain_inputs
    (yabai_reply loads_spaces (commands world (YABAI "spaces")))
    (yabai_reply loads_windows (commands world (YABAI "windows")))
    (tmux_reply (commands world TMUX)) →
  let run := main loads_spaces loads_windows world in
  let quiet := main loads_spaces loads_windows (colorless_world world) in
  prints (events quiet) = erase <$> prints (events run)
  ∧ ending quiet = ending run.
Proof.
  intros Hplain run quiet.
  pose proof (main_refines_cli loads_spaces loads_windows world) as Hrun.
  pose proof (main_refines_cli loads_spaces loads_windows
                (colorless_world world)) as Hquiet.
  change (_use_color (colorless_world world)) with false in Hquiet.
  change (commands (colorless_world world)) with (commands world) in Hquiet.
  rewrite <- (uncolored_cli (_use_color world) _ _ _ Hplain) in Hquiet.
  rewrite <- Hrun in Hquiet. unfold uncolored in Hquiet. simpl in Hquiet.
  by injection Hquiet.
Qed.

Lemma no_color_only_removes_escapes_witness :
  let world := MkWorld None (Some true) (commands sample_world) in
  let run :=
    main (λ _, Some example_spaces) (λ _, Some example_windows) world in
  let quiet :=
    main (λ _, Some example_spaces) (λ _, Some example_windows)
      (colorless_world world) in
  prints (events quiet) = erase <$> prints (events run)
  ∧ ending quiet = ending run.
Proof.
  apply (no_color_only_removes_escapes (λ _, Some example_spaces)
           (λ _, Some example_windows)
           (MkWorld None (Some true) (commands sample_world))).
  by repeat constructor.
Defined.

(** X17. A failed windows query never fails the run.  When the spaces
    query gives a list and the windows query fails in any way the program
    handles, the run prints what [cli] prints for an empty window list,
    executes all three commands and ends normally. *)
Theorem failed_windows_query_is_absorbed
    (loads_spaces : string → option (list Space))
    (loads_windows : string → option (list Window)) (world : World)
    (raw_spaces : list Space) :
  yabai_reply loads_spaces (commands world (YABAI "spaces"))
  = Some raw_spaces →
  match commands world (YABAI "windows") with
  | CompletedProcess returncode out =>
      returncode ≠ 0 ∨ loads_windows out = None
  | FileNotFoundError | TimeoutExpired => True
  end →
  let run := main loads_spaces loads_windows world in
  prints (events run)
  = stdout (cli (_use_color world) (Some raw_spaces) (Some [])
              (tmux_reply (commands world TMUX)))
  ∧ execs (events run) = [YABAI "spaces"; YABAI "windows"; TMUX]
  ∧ ending run = Ok tt.
Proof.
  intros E Hfail run.
  assert (yabai_reply loads_windows (commands world (YABAI "windows"))
          = None) as Hnone.
  { unfold yabai_reply.
    destruct (commands world (YABAI "windows")) as [returncode out| |];
      [|done..].
    case_bool_decide; [done|]. by destruct Hfail. }
  assert (render_table (_use_color world) raw_spaces
            (default [] (yabai_reply loads_windows
                           (commands world (YABAI "windows"))))
          = MkIO (table_lines (_use_color world) raw_spaces [])
              (Ok (MkIndices (free_in_order raw_spaces [])
                     (terminals_in_order raw_spaces [])))) as Htab.
  { rewrite Hnone. apply render_table_indices. intros; constructor. }
  unfold run. rewrite (main_table_printed _ _ _ _ _ _ E Htab).
  cbn [events ending].
  rewrite Hnone in Htab.
  rewrite (cli_ok _ raw_spaces (Some []) _ _ _ Htab). cbn [stdout].
  split; [|split; [|done]].
  - rewrite !prints_app, !prints_Print. simpl.
    by rewrite <- app_assoc.
  - by rewrite !execs_app, !execs_Print.
Qed.

Lemma failed_windows_query_is_absorbed_witness :
  let run := main (λ _, Some two_spaces) (λ _, None) windowless_world in
  prints (events run)
  = stdout (cli (_use_color windowless_world) (Some two_spaces) (Some [])
              (tmux_reply (commands windowless_world TMUX)))
  ∧ execs (events run) = [YABAI "spaces"; YABAI "windows"; TMUX]
  ∧ ending run = Ok tt.
Proof.
  apply (failed_windows_query_is_absorbed (λ _, Some two_spaces)
           (λ _, None) windowless_world two_spaces).
  - reflexivity.
  - exact I.
Defined.

(** X18. [by_display] after the grouping loop: its keys are exactly the
    display numbers of the spaces (1 for a space without one), no key
    holds an empty list, and the list of a key is exactly the spaces of
    that display in source order. *)
Theorem by_display_invariant (raw_spaces : list Space) :
  map_Forall
    (λ d spaces,
       spaces ≠ []
       ∧ spaces = filter (λ s, default 1 (s_display s) = d) raw_spaces)
    (group_spaces raw_spaces)
  ∧ ∀ d, is_Some (group_spaces raw_spaces !! d)
         ↔ ∃ s, s ∈ raw_spaces ∧ default 1 (s_display s) = d.
Proof.
  split.
  - intros d spaces Hd.
    split; [by apply (group_spaces_nonempty raw_spaces d)|].
    pose proof (lookup_group_spaces raw_spaces d) as E.
    by rewrite lookup_total_alt, Hd in E.
  - intros d. rewrite <- elem_of_dom. apply elem_of_dom_group_spaces.
Qed.

(** X19. The table does not depend on the order in which yabai lists the
    spaces: when no two spaces share both display and index, a run on any
    rearrangement of the list of spaces prints the same lines and ends
    the same way. *)
Theorem order_of_spaces_is_irrelevant (color : bool)
    (raw_spaces raw_spaces' : list Space)
    (yabai_windows : option (list Window)) (tmux : list string) :
  NoDup (space_place <$> raw_spaces) →
  raw_spaces ≡ₚ raw_spaces' →
  cli color (Some raw_spaces) yabai_windows tmux
  = cli color (Some raw_spaces') yabai_windows tmux.
Proof.
  intros Hnd E. unfold cli.
  by rewrite (render_table_Permutation color raw_spaces raw_spaces'
                (default [] yabai_windows) Hnd E).
Qed.

Lemma order_of_spaces_is_irrelevant_witness :
  cli true (Some example_spaces) (Some example_windows) ["dev:3w"]
  = cli true (Some (reverse example_spaces)) (Some example_windows)
      ["dev:3w"].
Proof.
  apply (order_of_spaces_is_irrelevant true example_spaces
           (reverse example_spaces) (Some example_windows) ["dev:3w"]).
  - apply (bool_decide_unpack (NoDup (space_place <$> example_spaces))).
    vm_compute. exact I.
  - by rewrite reverse_Permutation.
Defined.

(** X20. The summary of a space is determined by what it reads: the app
    and title of each terminal window, in order, and how many
    non-terminal windows each app has.  Two window lists that agree on
    these give the same text, whatever the order and the titles of their
    non-terminal windows. *)
Theorem summary_reads_terminals_and_app_counts (color : bool)
    (wins wins' : list Window) :
  Forall has_app wins → Forall has_app wins' →
  terminal_view <$> filter (λ w, terminal_app w) wins
  = terminal_view <$> filter (λ w, terminal_app w) wins' →
  w_app <$> filter (λ w, ¬ terminal_app w) wins
  ≡ₚ w_app <$> filter (λ w, ¬ terminal_app w) wins' →
  format_windows_for_space color wins
  = format_windows_for_space color wins'.
Proof.
  intros Hall Hall' Hterm Hoth.
  rewrite !format_windows_for_space_ok by done. f_equal.
  assert (length wins = length wins') as Hlen.
  { rewrite (windows_split_length wins), (windows_split_length wins').
    apply (f_equal length) in Hterm. rewrite !length_fmap in Hterm.
    apply Permutation_length in Hoth. rewrite !length_fmap in Hoth.
    by rewrite Hterm, Hoth. }
  assert (summary_parts color wins = summary_parts color wins') as Hparts.
  { unfold summary_parts. f_equal.
    - apply (fmap_view_ext terminal_view); [|done].
      apply terminal_entry_view.
    - assert (other_apps wins = other_apps wins') as Happs.
      { unfold other_apps.
        assert (dom (count_apps ∅ (filter (λ w, ¬ terminal_app w) wins))
                = dom (count_apps ∅ (filter (λ w, ¬ terminal_app w) wins')))
          as ->; [|done].
        apply set_eq. intros a.
        rewrite !elem_of_dom_count_apps by by apply Forall_filter_keep.
        rewrite dom_empty.
        assert (∀ l : list Window,
                  (∃ w, w ∈ l ∧ w_app w = Some a) ↔ Some a ∈ w_app <$> l)
          as Hin.
        { intros l. rewrite list_elem_of_fmap.
          split; intros (w & ? & ?); by exists w. }
        by rewrite !Hin, Hoth. }
      rewrite <- Happs. apply Forall_fmap_ext, Forall_forall.
      intros a [Ha _]%(elem_of_other_apps wins a Hall).
      by rewrite !app_count_others, Hoth by done. }
  unfold window_summary. rewrite Hparts.
  by destruct wins, wins'.
Qed.

Lemma summary_reads_terminals_and_app_counts_witness :
  format_windows_for_space true mixed_windows
  = format_windows_for_space true shuffled_windows.
Proof.
  apply (summary_reads_terminals_and_app_counts true mixed_windows
           shuffled_windows).
  - repeat constructor; by eexists.
  - repeat constructor; by eexists.
  - reflexivity.
  - vm_compute. apply perm_swap.
Defined.
